(** * Adax: a verified model of the heater-control client

    A shallow embedding of [adax/__init__.py]: the [Adax] data handler, its
    request executor [_request], the token exchange [get_adax_token], the
    read path ([update], [fetch_rooms_info], [fetch_energy_info]) and the
    write path ([set_room_target_temperature] and the flush task
    [_write_set_room_target_temperature]).

    The client is asyncio code.  A coroutine runs without interruption from
    one [await] to the next, and at an [await] it gives the shared object
    back to the event loop.  The model keeps exactly that: a coroutine is a
    resumption ([coro]) that, at each [await], hands over the current world
    and a continuation which is resumed on the world as it is at that later
    moment. *)

From Stdlib Require Import ZArith NArith Ascii String List Bool Lia SpecFloat.
From stdpp Require Import base option list gmap strings pretty.

Set Warnings "-register-all,-clear-no-such-hyp".

(** ** Python values *)

(** Python floats are IEEE binary64 numbers. *)
Definition float : Type := spec_float.
Definition prec : Z := 53.
Definition emax : Z := 1024.

Definition float_mul : float -> float -> float := SFmul prec emax.
Definition float_div : float -> float -> float := SFdiv prec emax.

(** The correctly rounded binary64 value of an integer. *)
Definition float_of_Z (z : Z) : float := binary_normalize prec emax z 0 false.

(** A decimal literal [n / 10^k], as Python reads [21.5] or [0.1]. *)
Definition float_lit (n : Z) (k : nat) : float :=
  float_div (float_of_Z n) (float_of_Z (10 ^ Z.of_nat k)).

Inductive exn :=
  | ClientError (msg : string)
  | TimeoutError
  | ValueError
  | OverflowError
  | TypeError
  | KeyError (key : string)
  | AttributeError
  | JSONDecodeError.

(** [float(n)] for a Python int: an int too large for a float raises. *)
Definition py_float_of_int (n : Z) : exn + float :=
  match float_of_Z n with
  | S754_infinity _ => inl OverflowError
  | x => inr x
  end.

(** [int(x)]: truncation toward zero; NaN and the infinities raise. *)
Definition py_int (x : float) : exn + Z :=
  match x with
  | S754_zero _ => inr 0%Z
  | S754_infinity _ => inl OverflowError
  | S754_nan => inl ValueError
  | S754_finite s m e =>
      let a := match e with
               | Zneg p => Z.shiftr (Zpos m) (Zpos p)
               | _ => Z.shiftl (Zpos m) e
               end in
      inr (if s then Z.opp a else a)
  end.

(** [str(n)] for a Python int. *)
Definition py_str_int (n : Z) : string := pretty n.

(** JSON documents as [json.loads] and [response.json()] deliver them. *)
Inductive json :=
  | JNull
  | JBool (b : bool)
  | JInt (n : Z)
  | JFloat (x : float)
  | JStr (s : string)
  | JList (l : list json)
  | JObject (o : gmap string json).

(** [x / 100.0] for a JSON value [x]: numbers (and booleans, which are ints)
    divide, anything else is a [TypeError]. *)
Definition py_div_100 (x : json) : exn + float :=
  let hundred := float_of_Z 100 in
  match x with
  | JInt n =>
      match py_float_of_int n with
      | inl e => inl e
      | inr f => inr (float_div f hundred)
      end
  | JBool b => inr (float_div (float_of_Z (if b then 1 else 0)) hundred)
  | JFloat f => inr (float_div f hundred)
  | _ => inl TypeError
  end.

(** The digits of a decimal string, most significant first. *)
Definition digit_of (c : Ascii.ascii) : option Z :=
  let n := Z.of_N (Ascii.N_of_ascii c) in
  if ((48 <=? n) && (n <=? 57))%Z then Some (n - 48)%Z else None.

Fixpoint digits_value (acc : Z) (s : string) : option Z :=
  match s with
  | EmptyString => Some acc
  | String c s' =>
      match digit_of c with
      | Some d => digits_value (10 * acc + d)%Z s'
      | None => None
      end
  end.

(** [int(s)] on the strings [str] produces for ints: an optional minus sign
    and at least one digit. *)
Definition int_of_str (s : string) : option Z :=
  match s with
  | EmptyString => None
  | String "-"%char EmptyString => None
  | String "-"%char s' => Z.opp <$> digits_value 0 s'
  | _ => digits_value 0 s
  end.

(** [float(s)] for the [targetTemperature] strings of a control body.  Those
    strings are written by [set_room_target_temperature] as [str(int(..))],
    so they are integer literals; any other text is a [ValueError]. *)
Definition py_float_of_str (s : string) : exn + float :=
  match int_of_str s with
  | Some n => py_float_of_int n
  | None => inl ValueError
  end.

(** [needle in hay] for strings. *)
Fixpoint is_prefix (p s : string) : bool :=
  match p, s with
  | EmptyString, _ => true
  | String a p', String b s' => if Ascii.eqb a b then is_prefix p' s' else false
  | String _ _, EmptyString => false
  end.

Fixpoint contains (needle hay : string) : bool :=
  is_prefix needle hay ||
  match hay with
  | EmptyString => false
  | String _ hay' => contains needle hay'
  end.

(** ** The data model *)

(** Timestamps and durations are counted in microseconds, the resolution of
    [datetime]. *)
Abbreviation time := Z (only parsing).
Definition seconds (s : Z) : Z := (s * 1000000)%Z.
Definition hours (h : Z) : Z := seconds (h * 3600).

Definition API_URL : string := "https://api-1.adax.no/client-api".
Definition RATE_LIMIT_SECONDS : Z := 10.

(** A room of the snapshot: a JSON object whose ["id"] member is an integer,
    as the content endpoint delivers it.  The identifier is kept apart from
    the other members, which stay a dictionary. *)
Record room := Room {
  room_id : Z;
  room_items : gmap string json;
}.

(** One entry of the control body: [{"id": .., "heatingEnabled": ..,
    "targetTemperature": ..}].  [heatingEnabled] is whatever the caller
    passed: [True], [False] or [None]. *)
Record pending_room := PendingRoom {
  pr_id : Z;
  pr_heatingEnabled : option bool;
  pr_targetTemperature : string;
}.

(** The dictionary [{"rooms": [...]}], given by its ["rooms"] list. *)
Definition pending : Type := list pending_room.

(** An [asyncio.Event].  [ev_gen] counts the calls of [set()]: a waiter that
    went to sleep at generation [g] has been woken once [ev_gen] exceeds [g]. *)
Record Event := mkEvent {
  ev_flag : bool;
  ev_gen : nat;
}.

Record Adax := mkAdax {
  _account_id : string;
  _password : string;
  withenergy : bool;
  _access_token : option json;
  _homes : json;
  _rooms : list room;
  _devices : json;
  _energy : gmap Z json;
  _timeout : Z;
  _prev_request : time;
  _set_event : Event;
  _write_task : option nat;
  _pending_writes : pending;
}.

(** What the event loop knows of a task made by [asyncio.ensure_future]. *)
Inductive task_status :=
  | TaskPending       (* created, sleeping, or suspended in its request *)
  | TaskCancelled     (* [cancel()] reached it before it finished *)
  | TaskFinished      (* ran to its last line *)
  | TaskFailed (e : exn).   (* ended by an exception *)

Record task := mkTask {
  task_data : pending;          (* the [json_data] argument of the coroutine *)
  task_status_of : task_status;
}.

Inductive level := DEBUG | WARNING | ERROR.

(** The world a coroutine sees between two awaits: the object, the clock,
    the loop's tasks and the log. *)
Record World := mkWorld {
  self : Adax;
  now : time;
  tasks : list task;
  log : list (level * string);
}.

Definition with_self (f : Adax -> Adax) (w : World) : World :=
  mkWorld (f (self w)) (now w) (tasks w) (log w).
Definition with_now (t : time) (w : World) : World :=
  mkWorld (self w) t (tasks w) (log w).
Definition with_tasks (f : list task -> list task) (w : World) : World :=
  mkWorld (self w) (now w) (f (tasks w)) (log w).
Definition with_log (f : list (level * string) -> list (level * string))
    (w : World) : World :=
  mkWorld (self w) (now w) (tasks w) (f (log w)).

Definition set_access_token (v : option json) (a : Adax) : Adax :=
  mkAdax (_account_id a) (_password a) (withenergy a) v (_homes a) (_rooms a)
    (_devices a) (_energy a) (_timeout a) (_prev_request a) (_set_event a)
    (_write_task a) (_pending_writes a).
Definition set_homes (v : json) (a : Adax) : Adax :=
  mkAdax (_account_id a) (_password a) (withenergy a) (_access_token a) v
    (_rooms a) (_devices a) (_energy a) (_timeout a) (_prev_request a)
    (_set_event a) (_write_task a) (_pending_writes a).
Definition set_rooms (v : list room) (a : Adax) : Adax :=
  mkAdax (_account_id a) (_password a) (withenergy a) (_access_token a)
    (_homes a) v (_devices a) (_energy a) (_timeout a) (_prev_request a)
    (_set_event a) (_write_task a) (_pending_writes a).
Definition set_devices (v : json) (a : Adax) : Adax :=
  mkAdax (_account_id a) (_password a) (withenergy a) (_access_token a)
    (_homes a) (_rooms a) v (_energy a) (_timeout a) (_prev_request a)
    (_set_event a) (_write_task a) (_pending_writes a).
Definition set_energy (v : gmap Z json) (a : Adax) : Adax :=
  mkAdax (_account_id a) (_password a) (withenergy a) (_access_token a)
    (_homes a) (_rooms a) (_devices a) v (_timeout a) (_prev_request a)
    (_set_event a) (_write_task a) (_pending_writes a).
Definition set_prev_request (v : time) (a : Adax) : Adax :=
  mkAdax (_account_id a) (_password a) (withenergy a) (_access_token a)
    (_homes a) (_rooms a) (_devices a) (_energy a) (_timeout a) v
    (_set_event a) (_write_task a) (_pending_writes a).
Definition set_set_event (v : Event) (a : Adax) : Adax :=
  mkAdax (_account_id a) (_password a) (withenergy a) (_access_token a)
    (_homes a) (_rooms a) (_devices a) (_energy a) (_timeout a)
    (_prev_request a) v (_write_task a) (_pending_writes a).
Definition set_write_task (v : option nat) (a : Adax) : Adax :=
  mkAdax (_account_id a) (_password a) (withenergy a) (_access_token a)
    (_homes a) (_rooms a) (_devices a) (_energy a) (_timeout a)
    (_prev_request a) (_set_event a) v (_pending_writes a).
Definition set_pending_writes (v : pending) (a : Adax) : Adax :=
  mkAdax (_account_id a) (_password a) (withenergy a) (_access_token a)
    (_homes a) (_rooms a) (_devices a) (_energy a) (_timeout a)
    (_prev_request a) (_set_event a) (_write_task a) v.

(** ** Requests and responses *)

Inductive header_value :=
  | Lit (s : string)
  | Bearer (token : json).      (* f"Bearer {token}" *)

Inductive post_data :=
  | JsonData (rooms : pending)                 (* json={"rooms": [...]} *)
  | FormData (fields : list (string * string)). (* data={...} *)

(** What a coroutine can wait for. *)
Inductive io_request :=
  | HttpPost (url : string) (data : post_data)
      (headers : list (string * header_value))
  | HttpGet (url : string) (headers : list (string * header_value))
  | Sleep (delay : Z)
  | EventWait (gen : nat).

(** The body of a response: nothing, text that is not JSON, or a document. *)
Inductive body :=
  | BodyEmpty
  | BodyMalformed
  | BodyJson (j : json).

Record response := mkResponse {
  status : Z;
  reason : string;
  payload : body;
}.

(** How an await ends: with a response (or simply by waking up, for a sleep
    or an event), or with an exception raised at the await. *)
Inductive io_outcome :=
  | Response (r : response)
  | Failure (e : exn).

(** [await response.json()]: [None] for an empty body or the document
    [null]; text that is not JSON raises. *)
Definition response_json (r : response) : exn + option json :=
  match payload r with
  | BodyEmpty => inr None
  | BodyMalformed => inl JSONDecodeError
  | BodyJson JNull => inr None
  | BodyJson j => inr (Some j)
  end.

(** [json.loads(await response.text())]. *)
Definition json_loads_text (r : response) : exn + json :=
  match payload r with
  | BodyJson j => inr j
  | _ => inl JSONDecodeError
  end.

(** ** Coroutines *)

(** A coroutine either has returned, has raised, or is suspended at an
    await.  A suspended coroutine is resumed with the world of the moment it
    is resumed and the outcome of what it waited for. *)
Inductive coro (R : Type) : Type :=
  | Ret (w : World) (r : R)
  | Raise (w : World) (e : exn)
  | Await (w : World) (rq : io_request) (k : World -> io_outcome -> coro R).
Arguments Ret {R} w r.
Arguments Raise {R} w e.
Arguments Await {R} w rq k.

Definition M (R : Type) : Type := World -> coro R.

Fixpoint coro_bind {A B} (c : coro A) (f : A -> M B) : coro B :=
  match c with
  | Ret w a => f a w
  | Raise w e => Raise w e
  | Await w rq k => Await w rq (fun w' o => coro_bind (k w' o) f)
  end.

(** [try: c except ...: h]; the handler is [None] for the exceptions no
    [except] clause names. *)
Fixpoint coro_try {A} (c : coro A) (h : exn -> option (M A)) : coro A :=
  match c with
  | Ret w a => Ret w a
  | Raise w e => match h e with Some m => m w | None => Raise w e end
  | Await w rq k => Await w rq (fun w' o => coro_try (k w' o) h)
  end.

Definition ret {A} (a : A) : M A := fun w => Ret w a.
Definition raise {A} (e : exn) : M A := fun w => Raise w e.
Definition bind {A B} (m : M A) (f : A -> M B) : M B :=
  fun w => coro_bind (m w) f.
Definition try_except {A} (m : M A) (h : exn -> option (M A)) : M A :=
  fun w => coro_try (m w) h.

Notation "'let*' x ':=' m 'in' k" := (bind m (fun x => k))
  (at level 10, x name, m at level 100, k at level 200).
Notation "'do' m 'then' k" := (bind m (fun _ => k))
  (at level 10, m at level 100, k at level 200).

(** Raise what a pure computation raised. *)
Definition lift {A} (r : exn + A) : M A :=
  match r with inl e => raise e | inr a => ret a end.

Definition get {A} (f : Adax -> A) : M A := fun w => Ret w (f (self w)).
Definition modify (f : Adax -> Adax) : M unit := fun w => Ret (with_self f w) tt.

(** [datetime.datetime.utcnow()]. *)
Definition utcnow : M time := fun w => Ret w (now w).

(** [self._prev_request = datetime.datetime.utcnow()]. *)
Definition stamp_prev_request : M unit :=
  fun w => Ret (with_self (set_prev_request (now w)) w) tt.

Definition logging (l : level) (msg : string) : M unit :=
  fun w => Ret (with_log (fun ls => ls ++ [(l, msg)]) w) tt.

(** [await websession.post(...)] and [await websession.get(...)], under the
    timeout that surrounds them: the await yields a response or raises. *)
Definition await_http (rq : io_request) : M response :=
  fun w => Await w rq (fun w' o =>
    match o with
    | Response r => Ret w' r
    | Failure e => Raise w' e
    end).

(** [await asyncio.sleep(delay)]. *)
Definition asyncio_sleep (delay : Z) : M unit :=
  fun w => Await w (Sleep delay) (fun w' _ => Ret w' tt).

(** [Event.wait()], [Event.set()], [Event.clear()]. *)
Definition event_wait : M unit :=
  fun w =>
    let ev := _set_event (self w) in
    if ev_flag ev then Ret w tt
    else Await w (EventWait (ev_gen ev)) (fun w' _ => Ret w' tt).
Definition event_set : M unit :=
  modify (fun a => set_set_event (mkEvent true (S (ev_gen (_set_event a)))) a).
Definition event_clear : M unit :=
  modify (fun a => set_set_event (mkEvent false (ev_gen (_set_event a))) a).

(** [asyncio.ensure_future(coroutine)]: the loop registers a new task, which
    has not started yet.  The only coroutine ever given to it is
    [_write_set_room_target_temperature(json_data)], so a task is described
    by that argument. *)
Definition ensure_future (json_data : pending) : M nat :=
  fun w => Ret (with_tasks (fun ts => ts ++ [mkTask json_data TaskPending]) w)
               (length (tasks w)).

(** [task.cancel()]: a task that has not finished is cancelled; it takes no
    further step of its own code, since the [CancelledError] thrown into it
    is caught nowhere in this module.  A finished task is left alone. *)
Definition cancel_task (t : task) : task :=
  match task_status_of t with
  | TaskPending => mkTask (task_data t) TaskCancelled
  | _ => t
  end.
Definition task_cancel (i : nat) : M unit :=
  fun w => Ret (with_tasks (fun ts => alter cancel_task i ts) w) tt.

(** ** The program *)

(** [d[key]] on a document. *)
Definition py_getitem (d : json) (key : string) : exn + json :=
  match d with
  | JObject o =>
      match o !! key with
      | Some v => inr v
      | None => inl (KeyError key)
      end
  | _ => inl TypeError
  end.

(** [d.get(key)] on a document: [None] for a missing key and for [null]. *)
Definition py_get (d : json) (key : string) : exn + option json :=
  match d with
  | JObject o =>
      match o !! key with
      | Some JNull | None => inr None
      | Some v => inr (Some v)
      end
  | _ => inl AttributeError
  end.

(** The rooms of a content document: a list of objects, each with an integer
    ["id"].  A document of another shape is outside the model; the source
    fails on it at its first use of the rooms, the model at this reading. *)
Definition as_room (j : json) : exn + room :=
  match j with
  | JObject o =>
      match o !! "id" with
      | Some (JInt n) => inr (Room n (delete "id" o))
      | Some _ => inl TypeError
      | None => inl (KeyError "id")
      end
  | _ => inl TypeError
  end.

Fixpoint as_rooms_list (l : list json) : exn + list room :=
  match l with
  | [] => inr []
  | j :: l' =>
      match as_room j with
      | inl e => inl e
      | inr r =>
          match as_rooms_list l' with
          | inl e => inl e
          | inr rs => inr (r :: rs)
          end
      end
  end.

Definition as_rooms (j : json) : exn + list room :=
  match j with
  | JList l => as_rooms_list l
  | _ => inl TypeError
  end.

(** [room[key] = v] and [room.get(key, 0)]. *)
Definition room_set (key : string) (v : json) (r : room) : room :=
  Room (room_id r) (<[key := v]> (room_items r)).
Definition room_get_0 (key : string) (r : room) : json :=
  default (JInt 0) (room_items r !! key).

(** Assignment to a member of the [i]-th room object of [self._rooms]. *)
Definition room_assign (i : nat) (key : string) (v : json) : M unit :=
  modify (fun a => set_rooms (alter (room_set key v) i (_rooms a)) a).

Definition token_request (account_id password : string) : io_request :=
  HttpPost (API_URL ++ "/auth/token")
    (FormData [("grant_type", "password");
               ("username", account_id);
               ("password", password)])
    [("Content-type", Lit "application/x-www-form-urlencoded");
     ("Accept", Lit "application/json")].

(** The body of [get_adax_token(websession, account_id, password, retry)];
    [again] is the call [get_adax_token(websession, account_id, password,
    retry=retry - 1)] when [retry > 0]. *)
Definition get_adax_token_body (again : option (M (option json)))
    (account_id password : string) : M (option json) :=
  let* attempt :=
    try_except
      (let* response := await_http (token_request account_id password) in
       ret (inr response))
      (fun err =>
         match err with
         | ClientError _ =>
             Some (match again with
                   | Some retried =>
                       let* t := retried in
                       ret (inl t)
                   | None =>
                       do logging ERROR "Error getting token Adax: %s " then
                       ret (inl None)
                   end)
         | TimeoutError =>
             Some (match again with
                   | Some retried =>
                       let* t := retried in
                       ret (inl t)
                   | None =>
                       do logging ERROR
                            "Timed out when connecting to Adax for token" then
                       ret (inl None)
                   end)
         | _ => None
         end) in
  match attempt with
  | inl returned => ret returned
  | inr response =>
      if negb (status response =? 200)%Z then
        do logging ERROR "Adax: Failed to login to retrieve token: %s %s" then
        ret None
      else
        let* token_data := lift (json_loads_text response) in
        lift (py_get token_data "access_token")
  end.

(** [get_adax_token(websession, account_id, password, retry)]. *)
Fixpoint get_adax_token (account_id password : string) (retry : nat)
    : M (option json) :=
  get_adax_token_body
    match retry with
    | S n => Some (get_adax_token account_id password n)
    | O => None
    end
    account_id password.

(** The first lines of [_request]: the token is taken from the object, or
    fetched and stored when there is none. *)
Definition ensure_token : M (option json) :=
  let* cached := get _access_token in
  match cached with
  | Some token => ret (Some token)
  | None =>
      let* account_id := get _account_id in
      let* password := get _password in
      let* token := get_adax_token account_id password 3 in
      do modify (set_access_token token) then
      ret token
  end.

Definition data_request (url : string) (json_data : option pending)
    (token : json) : io_request :=
  let headers := [("Authorization", Bearer token)] in
  match json_data with
  | Some data => HttpPost url (JsonData data) headers
  | None => HttpGet url headers
  end.

(** The [try] statement of [_request].  [inl v] stands for [return v] inside
    the statement, [inr response] for leaving it at its end.  The status test
    and the retry it starts stand inside the [try], so an exception that
    leaves the retried call is handled once more by the clauses of this
    call.  [again] is [self._request(url, json_data, retry=retry - 1)] when
    [retry > 0]. *)
Definition try_request (again : option (M (option response)))
    (rq : io_request) : M (option response + response) :=
  try_except
    (let* response := await_http rq in
     if negb (status response =? 200)%Z then
       do modify (set_access_token None) then
       match again with
       | Some retried =>
           if (status response =? 429)%Z then
             do logging WARNING "Too many requests" then
             ret (inl None)
           else
             let* r := retried in
             ret (inl r)
       | None =>
           do logging ERROR "Error connecting to Adax, response: %s %s" then
           ret (inl None)
       end
     else ret (inr response))
    (fun err =>
       match err with
       | ClientError msg =>
           Some (do modify (set_access_token None) then
                 match again with
                 | Some retried =>
                     if negb (contains "429" msg) then
                       let* r := retried in
                       ret (inl r)
                     else
                       do logging ERROR "Error connecting to Adax: %s " then
                       raise err
                 | None =>
                     do logging ERROR "Error connecting to Adax: %s " then
                     raise err
                 end)
       | TimeoutError =>
           Some (do modify (set_access_token None) then
                 match again with
                 | Some retried =>
                     let* r := retried in
                     ret (inl r)
                 | None =>
                     do logging ERROR "Timed out when connecting to Adax" then
                     raise err
                 end)
       | _ => None
       end).

Definition _request_body (again : option (M (option response)))
    (url : string) (json_data : option pending) : M (option response) :=
  do stamp_prev_request then
  do logging DEBUG "Request %s %s, %s" then
  let* token := ensure_token in
  match token with
  | None => ret None
  | Some token =>
      let* tried := try_request again (data_request url json_data token) in
      match tried with
      | inl returned => ret returned
      | inr response =>
          do stamp_prev_request then
          ret (Some response)
      end
  end.

(** [Adax._request(url, json_data, retry)]. *)
Fixpoint _request (url : string) (json_data : option pending) (retry : nat)
    : M (option response) :=
  _request_body
    match retry with
    | S n => Some (_request url json_data n)
    | O => None
    end
    url json_data.

Definition content_url (with_energy : bool) : string :=
  API_URL ++ "/rest/v1/content/" ++ (if with_energy then "?withEnergy=1" else "").
Definition energy_url (id : Z) : string :=
  API_URL ++ "/rest/v1/energy_log/" ++ py_str_int id.
Definition control_url : string := API_URL ++ "/rest/v1/control/".

(** The body of the loop of [fetch_rooms_info], on the [i]-th room. *)
Definition ingest_room (i : nat) : M unit :=
  let* rooms := get _rooms in
  match rooms !! i with
  | None => ret tt
  | Some room =>
      let* target := lift (py_div_100 (room_get_0 "targetTemperature" room)) in
      do room_assign i "targetTemperature" (JFloat target) then
      let* temperature := lift (py_div_100 (room_get_0 "temperature" room)) in
      room_assign i "temperature" (JFloat temperature)
  end.

Fixpoint for_each (l : list nat) (body : nat -> M unit) : M unit :=
  match l with
  | [] => ret tt
  | i :: l' => do body i then for_each l' body
  end.

(** [Adax.fetch_rooms_info()]. *)
Definition fetch_rooms_info : M unit :=
  let* with_energy := get withenergy in
  let* response := _request (content_url with_energy) None 1 in
  match response with
  | None => ret tt
  | Some response =>
      let* json_data := lift (response_json response) in
      match json_data with
      | None => ret tt
      | Some json_data =>
          let* homes := lift (py_getitem json_data "homes") in
          do modify (set_homes homes) then
          let* rooms := lift (py_getitem json_data "rooms") in
          let* rooms := lift (as_rooms rooms) in
          do modify (set_rooms rooms) then
          let* devices := lift (py_getitem json_data "devices") in
          do modify (set_devices devices) then
          for_each (seq 0 (length rooms)) ingest_room
      end
  end.

(** The loop of [fetch_energy_info] over the rooms still to visit, with the
    local mapping [room_energy] built so far; [self._energy] is assigned
    after the last room only. *)
Fixpoint fetch_energy_loop (rooms : list room) (room_energy : gmap Z json)
    : M unit :=
  match rooms with
  | [] => modify (set_energy room_energy)
  | room :: rest =>
      let* response := _request (energy_url (room_id room)) None 1 in
      match response with
      | None => ret tt
      | Some response =>
          let* json_data := lift (response_json response) in
          match json_data with
          | None => ret tt
          | Some json_data =>
              fetch_energy_loop rest (<[room_id room := json_data]> room_energy)
          end
      end
  end.

(** [Adax.fetch_energy_info()]. *)
Definition fetch_energy_info : M unit :=
  let* rooms := get _rooms in
  fetch_energy_loop rooms ∅.

(** The test that opens [update]: too early after the last request, or a
    write task in the slot. *)
Definition skip_update (w : World) : bool :=
  (now w - _prev_request (self w) <? seconds RATE_LIMIT_SECONDS)%Z
  || bool_decide (is_Some (_write_task (self w))).

(** [Adax.update()]. *)
Definition update : M unit :=
  fun w =>
    if skip_update w then logging DEBUG "Skip update" w
    else (do fetch_rooms_info then fetch_energy_info) w.

Definition get_homes : M json := do update then get _homes.
Definition get_rooms : M (list room) := do update then get _rooms.
Definition get_devices : M json := do update then get _devices.
Definition get_energy : M (gmap Z json) := do update then get _energy.

(** [str(int(temperature * 100))]. *)
Definition encode_temperature (temperature : float) : exn + string :=
  match py_int (float_mul temperature (float_of_Z 100)) with
  | inl e => inl e
  | inr n => inr (py_str_int n)
  end.

(** [Adax.set_room_target_temperature(room_id, temperature, heating_enabled)]. *)
Definition set_room_target_temperature (room_id : Z) (temperature : float)
    (heating_enabled : option bool) : M unit :=
  let* write_task := get _write_task in
  do match write_task with
     | Some t => task_cancel t
     | None => ret tt
     end then
  do modify (fun a =>
       set_pending_writes
         (filter (fun room => negb (pr_id room =? room_id)%Z) (_pending_writes a))
         a) then
  let* target := lift (encode_temperature temperature) in
  do modify (fun a =>
       set_pending_writes
         (_pending_writes a ++ [PendingRoom room_id heating_enabled target]) a) then
  let* json_data := get _pending_writes in
  let* t := ensure_future json_data in
  do modify (set_write_task (Some t)) then
  event_wait.

(** The body of the outer loop of the flush, on the [i]-th room of the
    snapshot: the first entry of the batch with the same id, if any, is
    written into the room. *)
Definition patch_room (json_data : pending) (i : nat) : M unit :=
  let* rooms := get _rooms in
  match rooms !! i with
  | None => ret tt
  | Some room_i =>
      match List.find (fun room_j => (room_id room_i =? pr_id room_j)%Z) json_data with
      | None => ret tt
      | Some room_j =>
          let* target := lift (py_float_of_str (pr_targetTemperature room_j)) in
          do room_assign i "targetTemperature"
               (JFloat (float_div target (float_of_Z 100))) then
          match pr_heatingEnabled room_j with
          | Some enabled => room_assign i "heatingEnabled" (JBool enabled)
          | None => ret tt
          end
      end
  end.

(** The delay of a flush: [max(0.1, (prev + RATE_LIMIT - now).total_seconds())]. *)
Definition flush_delay (prev_request now : time) : Z :=
  Z.max 100000 (prev_request + seconds RATE_LIMIT_SECONDS - now).

(** What the flush does once its request has returned. *)
Definition after_control (json_data : pending) (result : option response)
    : M unit :=
  do match result with
     | Some _ =>
         let* rooms := get _rooms in
         for_each (seq 0 (length rooms)) (patch_room json_data)
     | None => ret tt
     end then
  do modify (set_pending_writes []) then
  do event_set then
  do event_clear then
  modify (set_write_task None).

(** [Adax._write_set_room_target_temperature(json_data)]. *)
Definition _write_set_room_target_temperature (json_data : pending) : M unit :=
  let* now := utcnow in
  let* prev := get _prev_request in
  let delay := flush_delay prev now in
  do logging DEBUG "Delaying request %.1fs" then
  do asyncio_sleep delay then
  let* result := _request control_url (Some json_data) 3 in
  after_control json_data result.

(** [Adax(account_id, password, websession, withenergy)], built at [t0]. *)
Definition init (account_id password : string) (with_energy : bool)
    (t0 : time) : Adax :=
  mkAdax account_id password with_energy None (JList []) [] (JList []) ∅ 10
    (t0 - hours 2) (mkEvent false 0) None [].

(** ** Running one coroutine alone *)

Inductive result (R : Type) : Type :=
  | Returned (r : R)
  | Raised (e : exn)
  | Blocked (rq : io_request).
Arguments Returned {R} r.
Arguments Raised {R} e.
Arguments Blocked {R} rq.

Record run_end (R : Type) : Type := mkRunEnd {
  final : World;                       (* the world at the end *)
  outcome : result R;                  (* how the coroutine ended *)
  awaited : list io_request;           (* what it waited for, in order *)
  unused : list (N * io_outcome);      (* the answers it did not consume *)
}.
Arguments mkRunEnd {R} final outcome awaited unused.
Arguments final {R} r.
Arguments outcome {R} r.
Arguments awaited {R} r.
Arguments unused {R} r.

Definition is_http (rq : io_request) : bool :=
  match rq with
  | HttpPost _ _ _ | HttpGet _ _ => true
  | _ => false
  end.

(** The time at which an await that started at [since] ends, when the
    collaborator takes [d] microseconds: a sleep lasts at least its delay. *)
Definition wake_time (rq : io_request) (since : time) (d : N) : time :=
  match rq with
  | Sleep delay => (since + Z.max delay (Z.of_N d))%Z
  | _ => (since + Z.of_N d)%Z
  end.

(** [run c answers]: the coroutine runs with nothing else scheduled between
    its steps.  Each await takes the next answer: the time the await lasts and
    how it ends.  An await on the event cannot end, since no other coroutine
    runs to set it; neither can an await without an answer. *)
Fixpoint run {R} (c : coro R) (answers : list (N * io_outcome)) : run_end R :=
  match c with
  | Ret w r => mkRunEnd w (Returned r) [] answers
  | Raise w e => mkRunEnd w (Raised e) [] answers
  | Await w rq k =>
      match rq, answers with
      | EventWait _, _ => mkRunEnd w (Blocked rq) [rq] answers
      | _, [] => mkRunEnd w (Blocked rq) [rq] []
      | _, (d, o) :: answers' =>
          let r := run (k (with_now (wake_time rq (now w) d) w) o) answers' in
          mkRunEnd (final r) (outcome r) (rq :: awaited r) (unused r)
      end
  end.

(** The bodies posted to the control endpoint among a list of requests. *)
Definition control_body (rq : io_request) : option pending :=
  match rq with
  | HttpPost url (JsonData data) _ =>
      if String.eqb url control_url then Some data else None
  | _ => None
  end.
Definition control_posts (rqs : list io_request) : list pending :=
  omap control_body rqs.

(** ** The event loop *)

Record suspended (R : Type) : Type := mkSuspended {
  s_request : io_request;                      (* what it waits for *)
  s_since : time;                              (* since when *)
  s_resume : World -> io_outcome -> coro R;    (* the rest of the coroutine *)
}.
Arguments mkSuspended {R} s_request s_since s_resume.
Arguments s_request {R} s.
Arguments s_since {R} s.
Arguments s_resume {R} s.

(** The calls a user of the client can make. *)
Inductive call :=
  | CallUpdate
  | CallGetHomes
  | CallGetRooms
  | CallGetDevices
  | CallGetEnergy
  | CallSet (room_id : Z) (temperature : float) (heating_enabled : option bool).

Inductive value :=
  | VNone
  | VJson (j : json)
  | VRooms (rooms : list room)
  | VEnergy (energy : gmap Z json).

Definition run_call (c : call) : M value :=
  match c with
  | CallUpdate => do update then ret VNone
  | CallGetHomes => let* v := get_homes in ret (VJson v)
  | CallGetRooms => let* v := get_rooms in ret (VRooms v)
  | CallGetDevices => let* v := get_devices in ret (VJson v)
  | CallGetEnergy => let* v := get_energy in ret (VEnergy v)
  | CallSet room_id temperature heating_enabled =>
      do set_room_target_temperature room_id temperature heating_enabled then
      ret VNone
  end.

Inductive caller_state :=
  | CallerWaiting (s : suspended value)
  | CallerReturned (v : value)
  | CallerRaised (e : exn).

Inductive origin :=
  | ByTask (t : nat)
  | ByCaller (c : nat).

(** The loop: the shared world, the write tasks that have started and are
    suspended, the callers, and every HTTP request dispatched so far. *)
Record System := mkSystem {
  world : World;
  running : gmap nat (suspended unit);
  callers : list caller_state;
  wire : list (origin * io_request);
}.

Inductive event :=
  | Tick (d : N)                                (* time passes *)
  | Call (c : call)                             (* a caller enters the client *)
  | StartTask (t : nat)                         (* the loop starts a new task *)
  | ResumeTask (t : nat) (o : io_outcome)       (* the await of a task ends *)
  | ResumeCaller (c : nat) (o : io_outcome).    (* the await of a caller ends *)

(** Whether an await can end now: a sleep when its delay has passed, a wait
    on the event when [set()] has been called since, an HTTP call any time. *)
Definition ready (rq : io_request) (since : time) (w : World) : bool :=
  match rq with
  | Sleep delay => (since + delay <=? now w)%Z
  | EventWait g => g <? ev_gen (_set_event (self w))
  | _ => true
  end.

Definition dispatched (who : origin) (rq : io_request)
    : list (origin * io_request) :=
  if is_http rq then [(who, rq)] else [].

Definition set_task_status (t : nat) (st : task_status) (w : World) : World :=
  with_tasks (alter (fun tk => mkTask (task_data tk) st) t) w.

(** The loop takes back a task that ran from one await to the next. *)
Definition settle_task (s : System) (t : nat) (c : coro unit) : System :=
  match c with
  | Ret w _ =>
      mkSystem (set_task_status t TaskFinished w) (delete t (running s))
        (callers s) (wire s)
  | Raise w e =>
      mkSystem (set_task_status t (TaskFailed e) w) (delete t (running s))
        (callers s) (wire s)
  | Await w rq k =>
      mkSystem w (<[t := mkSuspended rq (now w) k]> (running s))
        (callers s) (wire s ++ dispatched (ByTask t) rq)
  end.

Definition caller_result (c : coro value) : caller_state :=
  match c with
  | Ret _ v => CallerReturned v
  | Raise _ e => CallerRaised e
  | Await w rq k => CallerWaiting (mkSuspended rq (now w) k)
  end.

Definition coro_world {R} (c : coro R) : World :=
  match c with
  | Ret w _ | Raise w _ | Await w _ _ => w
  end.

Definition coro_request {R} (c : coro R) : option io_request :=
  match c with
  | Await _ rq _ => Some rq
  | _ => None
  end.

Definition settle_caller (s : System) (i : nat) (c : coro value) : System :=
  mkSystem (coro_world c) (running s)
    (if decide (i < length (callers s))
     then <[i := caller_result c]> (callers s)
     else callers s ++ [caller_result c])
    (wire s ++ from_option (dispatched (ByCaller i)) [] (coro_request c)).

Definition task_pending (w : World) (t : nat) : bool :=
  match tasks w !! t with
  | Some (mkTask _ TaskPending) => true
  | _ => false
  end.

(** One step of the loop; [None] when the event cannot happen in [s]. *)
Definition step (s : System) (ev : event) : option System :=
  let w := world s in
  match ev with
  | Tick d =>
      Some (mkSystem (with_now (now w + Z.of_N d)%Z w) (running s) (callers s)
              (wire s))
  | Call c => Some (settle_caller s (length (callers s)) (run_call c w))
  | StartTask t =>
      match tasks w !! t, running s !! t with
      | Some (mkTask data TaskPending), None =>
          Some (settle_task s t (_write_set_room_target_temperature data w))
      | _, _ => None
      end
  | ResumeTask t o =>
      match running s !! t with
      | Some sp =>
          if task_pending w t && ready (s_request sp) (s_since sp) w
          then Some (settle_task s t (s_resume sp w o))
          else None
      | None => None
      end
  | ResumeCaller i o =>
      match callers s !! i with
      | Some (CallerWaiting sp) =>
          if ready (s_request sp) (s_since sp) w
          then Some (settle_caller s i (s_resume sp w o))
          else None
      | _ => None
      end
  end.

Fixpoint steps (s : System) (evs : list event) : option System :=
  match evs with
  | [] => Some s
  | ev :: evs' =>
      match step s ev with
      | Some s' => steps s' evs'
      | None => None
      end
  end.

(** A client that has just been built, at time [t0]. *)
Definition boot (account_id password : string) (with_energy : bool)
    (t0 : time) : System :=
  mkSystem (mkWorld (init account_id password with_energy t0) t0 [] []) ∅ [] [].

(** The world after the first two lines of [_request]: the timestamp is
    taken and the request is logged. *)
Definition started (w : World) : World :=
  with_log (fun ls => ls ++ [(DEBUG, "Request %s %s, %s")])
    (with_self (set_prev_request (now w)) w).

(** Sequencing of two runs: the second starts where the first returned. *)
Definition run_then {A B} (r : run_end A)
    (f : A -> World -> list (N * io_outcome) -> run_end B) : run_end B :=
  match outcome r with
  | Returned a =>
      let r2 := f a (final r) (unused r) in
      mkRunEnd (final r2) (outcome r2) (awaited r ++ awaited r2) (unused r2)
  | Raised e => mkRunEnd (final r) (Raised e) (awaited r) (unused r)
  | Blocked rq => mkRunEnd (final r) (Blocked rq) (awaited r) (unused r)
  end.

Arguments get_adax_token : simpl never.
Arguments _request : simpl never.
Arguments ensure_token : simpl never.

(** ** What a coroutine guarantees to the others

    [respects Ga Gf w0 c]: in each of its steps, from one await to the next,
    [c] changes the world it was resumed on only as allowed: by [Ga] when the
    step ends at an await, by [Gf] when it ends the coroutine.  The first step
    is taken to have started on [w0]. *)
Inductive respects {R} (Ga Gf : World -> World -> Prop)
    : World -> coro R -> Prop :=
  | respects_ret w0 w r : Gf w0 w -> respects Ga Gf w0 (Ret w r)
  | respects_raise w0 w e : Gf w0 w -> respects Ga Gf w0 (Raise w e)
  | respects_await w0 w rq k :
      Ga w0 w ->
      (forall w' o, respects Ga Gf w' (k w' o)) ->
      respects Ga Gf w0 (Await w rq k).

(** [mres Ga Gf m]: [m] respects the guarantee when it continues a step that
    has kept to [Ga] so far. *)
Definition mres {R} (Ga Gf : World -> World -> Prop) (m : M R) : Prop :=
  forall w0 w, Ga w0 w -> respects Ga Gf w0 (m w).

(** Members of the object that no coroutine assigns. *)
Definition same_identity (a a' : Adax) : Prop :=
  _account_id a' = _account_id a /\ _password a' = _password a
  /\ withenergy a' = withenergy a /\ _timeout a' = _timeout a.

Definition same_snapshots (a a' : Adax) : Prop :=
  _homes a' = _homes a /\ _rooms a' = _rooms a
  /\ _devices a' = _devices a /\ _energy a' = _energy a.

Definition same_writes (a a' : Adax) : Prop :=
  _set_event a' = _set_event a /\ _write_task a' = _write_task a
  /\ _pending_writes a' = _pending_writes a.

(** The timestamp after a step is the one before it, or the time of the step. *)
Definition stamped (w0 w : World) : Prop :=
  _prev_request (self w) = _prev_request (self w0)
  \/ _prev_request (self w) = now w0.

(** What a step of the executor may change: the token, the timestamp, the
    log. *)
Definition frame_request (w0 w : World) : Prop :=
  now w = now w0 /\ tasks w = tasks w0
  /\ same_identity (self w0) (self w)
  /\ same_snapshots (self w0) (self w)
  /\ same_writes (self w0) (self w)
  /\ stamped w0 w.

(** What a step of a read may change: the snapshots as well. *)
Definition frame_read (w0 w : World) : Prop :=
  now w = now w0 /\ tasks w = tasks w0
  /\ same_identity (self w0) (self w)
  /\ same_writes (self w0) (self w)
  /\ stamped w0 w.

(** Time has not gone back from [w0] to [w], and the timestamp of [w] is
    the one of [w0] or was taken since. *)
Definition later (w0 w : World) : Prop :=
  (now w0 <= now w)%Z
  /\ (_prev_request (self w) = _prev_request (self w0)
      \/ (now w0 <= _prev_request (self w))%Z).

(** ** Sample answers of the collaborators *)

(** The auth endpoint grants the token ["t"]. *)
Definition token_answer : io_outcome :=
  Response (mkResponse 200 "OK"
              (BodyJson (JObject {["access_token" := JStr "t"]}))).

(** A response with status 200 and the given body. *)
Definition ok_answer (b : body) : io_outcome :=
  Response (mkResponse 200 "OK" b).




(** What a flush with the batch [json_data] may do to a room: the id stays;
    of the members, only ["targetTemperature"] and ["heatingEnabled"] may
    differ; a room whose id is not in the batch stays as it is; and
    ["heatingEnabled"] stays when the entry for the room carries [None]. *)
Definition room_patch (json_data : pending) (r r' : room) : Prop :=
  room_id r' = room_id r
  /\ (forall key : string,
        key <> "targetTemperature" -> key <> "heatingEnabled" ->
        room_items r' !! key = room_items r !! key)
  /\ (room_id r ∉ (pr_id <$> json_data) -> r' = r)
  /\ (forall room_j,
        List.find (fun room_j => (room_id r =? pr_id room_j)%Z) json_data
        = Some room_j ->
        pr_heatingEnabled room_j = None ->
        room_items r' !! "heatingEnabled" = room_items r !! "heatingEnabled").

(** What a flush may do to the snapshots. *)
Definition snapshot_patch (json_data : pending) (a a' : Adax) : Prop :=
  _homes a' = _homes a /\ _devices a' = _devices a /\ _energy a' = _energy a
  /\ Forall2 (room_patch json_data) (_rooms a) (_rooms a').

Definition flush_patch (json_data : pending) (w0 w : World) : Prop :=
  snapshot_patch json_data (self w0) (self w).

(** The write slot is as it was, or has been emptied. *)
Definition slot_kept_or_reset (a a' : Adax) : Prop :=
  _write_task a' = _write_task a \/ _write_task a' = None.

(** What the last step of a flush may change. *)
Definition frame_flush_end (json_data : pending) (w0 w : World) : Prop :=
  now w = now w0 /\ tasks w = tasks w0
  /\ same_identity (self w0) (self w)
  /\ slot_kept_or_reset (self w0) (self w)
  /\ snapshot_patch json_data (self w0) (self w).

(** A computation without awaits, and what it does to the world. *)
Definition pure_step {A} (Q : World -> World -> Prop) (m : M A) : Prop :=
  forall w,
    match m w with
    | Ret w' _ | Raise w' _ => Q w w'
    | Await _ _ _ => False
    end.

(** ** Scenarios *)

(** One edit of room 1, whose flush then loses all four attempts of its POST
    to a timeout; each attempt has fetched a token first, the one before
    having dropped it. *)
Definition flush_times_out : list event :=
  [Call (CallSet 1 (float_lit 215 1) (Some true));
   StartTask 0; Tick 100000; ResumeTask 0 (ok_answer BodyEmpty);
   ResumeTask 0 token_answer;
   Tick 10000000; ResumeTask 0 (Failure TimeoutError);
   ResumeTask 0 token_answer;
   Tick 10000000; ResumeTask 0 (Failure TimeoutError);
   ResumeTask 0 token_answer;
   Tick 10000000; ResumeTask 0 (Failure TimeoutError);
   ResumeTask 0 token_answer;
   Tick 10000000; ResumeTask 0 (Failure TimeoutError)].

(** One edit of room 1 and one of room 2; the flush sleeps, wakes up, gets
    its token and dispatches its POST. *)
Definition flush_in_flight : list event :=
  [Call (CallSet 1 (float_lit 215 1) (Some true));
   Call (CallSet 2 (float_lit 18 0) (Some true));
   StartTask 1; Tick 100000; ResumeTask 1 (ok_answer BodyEmpty);
   ResumeTask 1 token_answer].

(** The requests on the wire that were dispatched by tasks. *)
Definition task_requests (wire : list (origin * io_request))
    : list (nat * io_request) :=
  omap (fun '(who, rq) =>
          match who with
          | ByTask t => Some (t, rq)
          | ByCaller _ => None
          end) wire.

(** The requests dispatched by task [t]. *)
Definition requests_of (t : nat) (wire : list (origin * io_request))
    : list io_request :=
  omap (fun '(t', rq) => if decide (t' = t) then Some rq else None)
    (task_requests wire).

(** ** States of the loop that a client can be in *)

Definition reachable (s : System) : Prop :=
  exists account_id password with_energy t0 evs,
    steps (boot account_id password with_energy t0) evs = Some s.

Definition pending_in (ts : list task) (t : nat) : bool :=
  match ts !! t with
  | Some (mkTask _ TaskPending) => true
  | _ => false
  end.

(** The tasks after the [cancel()] that opens an edit. *)
Definition cancel_slot (w : World) : list task :=
  match _write_task (self w) with
  | Some t => alter cancel_task t (tasks w)
  | None => tasks w
  end.

(** The entries an edit of room [room_id] keeps. *)
Definition other_rooms (room_id : Z) (rooms : pending) : pending :=
  filter (fun room => negb (pr_id room =? room_id)%Z) rooms.


(** What the last step of a task leaves as it was, whatever its batch. *)
Definition frame_task_end (w0 w : World) : Prop :=
  tasks w = tasks w0 /\ slot_kept_or_reset (self w0) (self w).

(** What holds of every state the loop can reach: a task that has not
    finished is the one in the write slot; the slot names a task of the
    loop; and the coroutines that are suspended keep to their guarantees. *)
Record sys_inv (s : System) : Prop := mkSysInv {
  inv_slot :
    forall t, pending_in (tasks (world s)) t = true ->
              _write_task (self (world s)) = Some t;
  inv_slot_valid :
    forall t, _write_task (self (world s)) = Some t ->
              t < length (tasks (world s));
  inv_running :
    forall t sp, running s !! t = Some sp ->
      forall w o, respects frame_request frame_task_end w (s_resume sp w o);
  inv_callers :
    forall i sp, callers s !! i = Some (CallerWaiting sp) ->
      forall w o, respects frame_read frame_read w (s_resume sp w o);
}.

(** A call other than an edit is a read. *)
Definition is_read (c : call) : Prop :=
  match c with
  | CallSet _ _ _ => False
  | _ => True
  end.

(** ** The window of an edit *)

(** An event other than the resumption of a task: while only such events
    happen, no flush gets past its sleep. *)
Definition quiet (ev : event) : Prop :=
  match ev with
  | ResumeTask _ _ => False
  | _ => True
  end.



(** [awaits_only P c]: whatever the answers and whatever the others do in
    between, every request the coroutine [c] waits for satisfies [P]. *)
Inductive awaits_only {R} (P : io_request -> Prop) : coro R -> Prop :=
  | awaits_ret w r : awaits_only P (Ret w r)
  | awaits_raise w e : awaits_only P (Raise w e)
  | awaits_await w rq k :
      P rq ->
      (forall w' o, awaits_only P (k w' o)) ->
      awaits_only P (Await w rq k).


(** The auth endpoint answers 200 with a document that holds a token. *)
Definition grants_token (r : response) (token : json) : Prop :=
  status r = 200%Z
  /\ exists o, payload r = BodyJson (JObject o)
               /\ o !! "access_token" = Some token
               /\ token <> JNull.

Definition m_awaits {R} (P : io_request -> Prop) (m : M R) : Prop :=
  forall w, awaits_only P (m w).


(** The scenario of the specification: room 1 is set to 21.5 with heating
    on, and at once to 22.0 with heating off. *)
Definition two_edits : list event :=
  [Call (CallSet 1 (float_lit 215 1) (Some true));
   Call (CallSet 1 (float_lit 22 0) (Some false))].

(** ** How a coroutine ends, whatever happens at its awaits *)

(** [ends Q c]: however the awaits of [c] end, and whatever the other
    coroutines have done to the world by the time [c] is resumed, the world
    and the outcome [c] ends with satisfy [Q]; so do the world and the
    request of every await at which it may stay suspended. *)
Inductive ends {R} (Q : World -> result R -> Prop) : coro R -> Prop :=
  | ends_ret w r : Q w (Returned r) -> ends Q (Ret w r)
  | ends_raise w e : Q w (Raised e) -> ends Q (Raise w e)
  | ends_await w rq k :
      Q w (Blocked rq) ->
      (forall w' o, ends Q (k w' o)) ->
      ends Q (Await w rq k).

(** [within n c]: whatever the answers, [c] waits at most [n] times. *)
Inductive within {R} : nat -> coro R -> Prop :=
  | within_ret n w r : within n (Ret w r)
  | within_raise n w e : within n (Raise w e)
  | within_await n w rq k :
      (forall w' o, within n (k w' o)) ->
      within (S n) (Await w rq k).

(** The exceptions the clauses [except ClientError] and
    [except asyncio.TimeoutError] catch. *)
Definition transport (e : exn) : bool :=
  match e with
  | ClientError _ | TimeoutError => true
  | _ => false
  end.

(** The token exchange makes at most four calls (retry budget 3).  A request
    makes one token exchange and one data call, and with a retry left it may
    go through the call with [retry - 1] twice: once from inside the [try]
    after a status other than 200, and once more from the [except] clause
    that catches what that call raised. *)
Fixpoint request_bound (retry : nat) : nat :=
  match retry with
  | O => 5
  | S n => 5 + 2 * request_bound n
  end.

(** The data calls among a list of requests: the calls that carry the
    bearer token. *)
Definition is_data_call (rq : io_request) : bool :=
  match rq with
  | HttpPost _ (JsonData _) _ | HttpGet _ _ => true
  | _ => false
  end.

(** What the executor guarantees when it is done. *)
Definition request_post (w : World) (out : result (option response)) : Prop :=
  match out with
  | Returned None => _access_token (self w) = None
  | Returned (Some r) => status r = 200%Z /\ _prev_request (self w) = now w
  | Raised e => transport e = true -> _access_token (self w) = None
  | Blocked _ => True
  end.

(** The run of [try: c except ...: h], from the run of [c]: when [c] raises
    an exception a clause names, the handler runs on from there. *)
Definition run_catch {A} (r : run_end A) (h : exn -> option (M A))
    : run_end A :=
  match outcome r with
  | Raised e =>
      match h e with
      | Some m =>
          let r2 := run (m (final r)) (unused r) in
          mkRunEnd (final r2) (outcome r2) (awaited r ++ awaited r2) (unused r2)
      | None => mkRunEnd (final r) (Raised e) (awaited r) (unused r)
      end
  | Returned a => mkRunEnd (final r) (Returned a) (awaited r) (unused r)
  | Blocked rq => mkRunEnd (final r) (Blocked rq) (awaited r) (unused r)
  end.

(** The server answers a data call with status 500. *)
Definition server_error : io_outcome :=
  Response (mkResponse 500 "Internal Server Error" BodyEmpty).

(** Answers that take a request with budget [retry], called without a token,
    through every attempt it can make: the token is granted, the data call
    is answered with status 500; the retry this starts inside the [try] ends
    by a timeout, which the [except] clause of the call catches to start the
    retry once more.  With no retry left the data call times out. *)
Fixpoint storm (retry : nat) : list (N * io_outcome) :=
  match retry with
  | O => [(0%N, token_answer); (0%N, Failure TimeoutError)]
  | S n => [(0%N, token_answer); (0%N, server_error)] ++ storm n ++ storm n
  end.

(** The number of data calls among the requests. *)
Definition data_calls (rqs : list io_request) : nat :=
  length (List.filter is_data_call rqs).

(** An event other than an edit. *)
Definition no_edit (ev : event) : Prop :=
  match ev with
  | Call (CallSet _ _ _) => False
  | _ => True
  end.

(** ** How the write path leaves the object *)

(** [finishes Ga Gr Ge w0 c]: as [respects], with one guarantee for the step
    in which [c] returns and one for the step in which it raises. *)
Inductive finishes {R} (Ga Gr Ge : World -> World -> Prop)
    : World -> coro R -> Prop :=
  | finishes_ret w0 w r : Gr w0 w -> finishes Ga Gr Ge w0 (Ret w r)
  | finishes_raise w0 w e : Ge w0 w -> finishes Ga Gr Ge w0 (Raise w e)
  | finishes_await w0 w rq k :
      Ga w0 w ->
      (forall w' o, finishes Ga Gr Ge w' (k w' o)) ->
      finishes Ga Gr Ge w0 (Await w rq k).

Definition mfin {R} (Ga Gr Ge : World -> World -> Prop) (m : M R) : Prop :=
  forall w0 w, Ga w0 w -> finishes Ga Gr Ge w0 (m w).

(** The step leaves the tasks, the event, the write slot and the pending
    set as they were. *)
Definition writes_kept (w0 w : World) : Prop :=
  tasks w = tasks w0 /\ same_writes (self w0) (self w).

(** The last lines of a flush have run: the pending set is empty, the write
    slot is empty, and the event has been set once and cleared. *)
Definition flush_done (w0 w : World) : Prop :=
  tasks w = tasks w0
  /\ _pending_writes (self w) = []
  /\ _write_task (self w) = None
  /\ _set_event (self w) = mkEvent false (S (ev_gen (_set_event (self w0)))).

(** What every reachable state satisfies on the write path: a flush that
    returns has run its last lines, one that raises has left the write state
    as it was; the event is clear; the pending set has one entry per room at
    most; the batch of a pending task is the pending set; and a caller that
    waits on the event went to sleep at a generation the event has reached,
    and returns as soon as it is woken. *)
Record write_inv (s : System) : Prop := mkWriteInv {
  wi_running :
    forall t sp, running s !! t = Some sp ->
      forall w o, finishes frame_request flush_done writes_kept w
                    (s_resume sp w o);
  wi_flag : ev_flag (_set_event (self (world s))) = false;
  wi_nodup : NoDup (pr_id <$> _pending_writes (self (world s)));
  wi_batch :
    forall t data,
      tasks (world s) !! t = Some (mkTask data TaskPending) ->
      data = _pending_writes (self (world s));
  wi_callers :
    forall i sp, callers s !! i = Some (CallerWaiting sp) ->
      (forall w o, awaits_only (fun rq => is_http rq = true) (s_resume sp w o))
      /\ forall g, s_request sp = EventWait g ->
                   g <= ev_gen (_set_event (self (world s)))
                   /\ forall w o, s_resume sp w o = Ret w VNone;
}.

(** One edit of room 1; its flush sleeps, wakes up, gets its token and
    dispatches its POST. *)
Definition flush_posted : list event :=
  [Call (CallSet 1 (float_lit 215 1) (Some true));
   StartTask 0; Tick 100000; ResumeTask 0 (ok_answer BodyEmpty);
   ResumeTask 0 token_answer].



(** What the loop that ends [fetch_rooms_info] makes of one room: both
    temperatures are divided by 100, one that is missing counts as 0. *)
Definition ingested (r : room) : exn + room :=
  match py_div_100 (room_get_0 "targetTemperature" r) with
  | inl e => inl e
  | inr target =>
      match py_div_100 (room_get_0 "temperature" r) with
      | inl e => inl e
      | inr temperature =>
          inr (room_set "temperature" (JFloat temperature)
                 (room_set "targetTemperature" (JFloat target) r))
      end
  end.

(** ** Time in the loop *)







(** Room 1 is set to 21.5 with heating on; the flush sleeps its 0.1 s, gets
    its token, posts and is answered.  At 0.15 s room 1 is set to 22.0 with
    heating off; the flush of this edit sleeps until the rate-limit window
    that follows the first POST is over, and posts. *)
Definition two_edits_apart : list event :=
  [Call (CallSet 1 (float_lit 215 1) (Some true));
   StartTask 0; Tick 100000; ResumeTask 0 (ok_answer BodyEmpty);
   ResumeTask 0 token_answer; ResumeTask 0 (ok_answer BodyEmpty);
   Tick 50000;
   Call (CallSet 1 (float_lit 22 0) (Some false));
   StartTask 1; Tick 10000000; ResumeTask 1 (ok_answer BodyEmpty)].


(* ===================================================================== *)
(** * Properties *)

(** ** Running a coroutine *)

Lemma run_bind {A B} (c : coro A) (f : A -> M B) answers :
  run (coro_bind c f) answers
  = run_then (run c answers) (fun a w rest => run (f a w) rest).
Proof.
  revert answers.
  induction c as [w a|w e|w rq k IH]; intros answers; simpl.
  - unfold run_then; simpl. destruct (run (f a w) answers); reflexivity.
  - reflexivity.
  - destruct rq; try reflexivity;
      destruct answers as [|[d o] rest]; try reflexivity;
      rewrite IH; unfold run_then; simpl;
      destruct (outcome (run (k _ o) rest)); reflexivity.
Qed.

Lemma run_bind_M {A B} (m : M A) (f : A -> M B) w answers :
  run (bind m f w) answers
  = run_then (run (m w) answers) (fun a w' rest => run (f a w') rest).
Proof. apply run_bind. Qed.

Lemma run_try {A} (c : coro A) (h : exn -> option (M A)) answers :
  run (coro_try c h) answers = run_catch (run c answers) h.
Proof.
  revert answers.
  induction c as [w a|w e|w rq k IH]; intros answers; simpl.
  - reflexivity.
  - unfold run_catch; simpl. destruct (h e) as [m|]; [|reflexivity].
    destruct (run (m w) answers); reflexivity.
  - destruct rq; try reflexivity;
      destruct answers as [|[d o] rest]; try reflexivity;
      rewrite IH; unfold run_catch; simpl;
      destruct (outcome (run (k _ o) rest)) as [a|e|rq]; try reflexivity;
      destruct (h e); reflexivity.
Qed.

Lemma run_await {R} w rq (k : World -> io_outcome -> coro R) d o rest :
  is_http rq = true ->
  run (Await w rq k) ((d, o) :: rest)
  = let r := run (k (with_now (now w + Z.of_N d)%Z w) o) rest in
    mkRunEnd (final r) (outcome r) (rq :: awaited r) (unused r).
Proof. destruct rq; simpl; try discriminate; reflexivity. Qed.

Lemma _request_S url json_data n :
  _request url json_data (S n)
  = _request_body (Some (_request url json_data n)) url json_data.
Proof. reflexivity. Qed.

Lemma _request_O url json_data :
  _request url json_data O = _request_body None url json_data.
Proof. reflexivity. Qed.

Lemma get_adax_token_S account_id password n :
  get_adax_token account_id password (S n)
  = get_adax_token_body (Some (get_adax_token account_id password n))
      account_id password.
Proof. reflexivity. Qed.

Lemma get_adax_token_O account_id password :
  get_adax_token account_id password O
  = get_adax_token_body None account_id password.
Proof. reflexivity. Qed.

Lemma data_request_http url json_data token :
  is_http (data_request url json_data token) = true.
Proof. destruct json_data; reflexivity. Qed.

(** Without a token in the object, a request starts by asking for one. *)
Lemma _request_reauthenticates url json_data retry w account_id password :
  _access_token (self w) = None ->
  _account_id (self w) = account_id ->
  _password (self w) = password ->
  exists w' k,
    _request url json_data retry w
    = Await w' (token_request account_id password) k.
Proof.
  intros Hnone <- <-.
  destruct retry; [rewrite _request_O|rewrite _request_S];
    unfold _request_body, ensure_token; cbn; rewrite Hnone;
    unfold get_adax_token; cbn; eauto.
Qed.

(** ** The request executor *)

(** C6.  A request that still has retries left and whose HTTP call is
    answered with status 429 is not retried: the call returns [None] straight
    away, the token of the object is dropped, the last line logged is the
    warning, the HTTP call is the last thing the request waited for, and the
    next request starts by asking for a new token.  The token the request
    used may have been in the object or fetched at its start. *)
Theorem too_many_requests_not_retried
    (url : string) (json_data : option pending) (retry : nat) (w : World)
    (token : json) (answers rest : list (N * io_outcome)) (d : N)
    (r : response) :
  retry > 0 ->
  status r = 429%Z ->
  outcome (run (ensure_token (started w)) answers) = Returned (Some token) ->
  unused (run (ensure_token (started w)) answers) = (d, Response r) :: rest ->
  let e := run (_request url json_data retry w) answers in
  outcome e = Returned None
  /\ _access_token (self (final e)) = None
  /\ last (log (final e)) = Some (WARNING, "Too many requests")
  /\ awaited e = awaited (run (ensure_token (started w)) answers)
                 ++ [data_request url json_data token]
  /\ unused e = rest
  /\ forall url' json_data' retry',
       exists w' k,
         _request url' json_data' retry' (final e)
         = Await w' (token_request (_account_id (self (final e)))
                                   (_password (self (final e)))) k.
Proof.
  intros Hretry Hst Hout Hun e. subst e.
  destruct retry as [|n]; [lia|]. rewrite _request_S.
  unfold _request_body. cbn. fold (started w). rewrite run_bind_M.
  unfold run_then. rewrite Hout, Hun. cbn.
  unfold try_request. cbn. rewrite Hst. cbn.
  destruct json_data; cbn; (repeat split);
    try (rewrite last_snoc; reflexivity);
    intros url' jd' retry'; apply _request_reauthenticates; reflexivity.
Qed.

Lemma too_many_requests_not_retried_witness :
  let w := mkWorld (set_access_token (Some (JStr "t")) (init "a" "p" false 0))
             0 [] [] in
  let r := mkResponse 429 "Too Many Requests" BodyEmpty in
  let e := run (_request control_url (Some []) 3 w) [(7%N, Response r)] in
  outcome e = Returned None /\ _access_token (self (final e)) = None
  /\ length (awaited e) = 1.
Proof.
  intros w r.
  pose proof (too_many_requests_not_retried control_url (Some []) 3 w
                (JStr "t") [(7%N, Response r)] [] 7%N r) as H.
  cbv zeta in H. destruct H as (H1 & H2 & _ & H4 & _); try reflexivity.
  - lia.
  - split; [exact H1|]. split; [exact H2|]. rewrite H4. reflexivity.
Defined.

(** Every attempt opens by taking the timestamp, and the first HTTP call of
    the attempt is dispatched in that same step. *)
Lemma _request_first_dispatch url json_data retry w :
  exists w' rq k,
    _request url json_data retry w = Await w' rq k
    /\ is_http rq = true
    /\ now w' = now w
    /\ _prev_request (self w') = now w.
Proof.
  destruct retry; [rewrite _request_O|rewrite _request_S];
    unfold _request_body, ensure_token; cbn;
    (destruct (_access_token (self w)) eqn:Htok; cbn;
     [ unfold try_request; cbn;
       eexists _, _, _; split; [reflexivity|];
       split; [apply data_request_http|]; split; reflexivity
     | unfold get_adax_token; cbn;
       eexists _, _, _; split; [reflexivity|];
       split; [reflexivity|]; split; reflexivity ]).
Qed.


(** ** Guarantees of the executor and of the reads *)

Lemma respects_mono {R} (Ga Gf Ga' Gf' : World -> World -> Prop) w0
    (c : coro R) :
  (forall u v, Ga u v -> Ga' u v) ->
  (forall u v, Gf u v -> Gf' u v) ->
  respects Ga Gf w0 c -> respects Ga' Gf' w0 c.
Proof.
  intros Ha Hf H. induction H; constructor; auto.
Qed.

Lemma respects_tail {R} Ga Gf w0 w rq (k : World -> io_outcome -> coro R) :
  respects Ga Gf w0 (Await w rq k) ->
  Ga w0 w /\ forall w' o, respects Ga Gf w' (k w' o).
Proof.
  intros H. inversion H; subst. split; auto.
Qed.

Section Guarantee.
Variables Ga Gf : World -> World -> Prop.
Hypothesis Ga_Gf : forall u v, Ga u v -> Gf u v.
Hypothesis Ga_refl : forall w, Ga w w.

Lemma respects_bind {A B} w0 (c : coro A) (f : A -> M B) :
  respects Ga Ga w0 c ->
  (forall a, mres Ga Gf (f a)) ->
  respects Ga Gf w0 (coro_bind c f).
Proof.
  intros H Hf. induction H; simpl.
  - apply Hf. assumption.
  - constructor. auto.
  - constructor; auto.
Qed.

Lemma respects_try {A} w0 (c : coro A) (h : exn -> option (M A)) :
  respects Ga Ga w0 c ->
  (forall e m, h e = Some m -> mres Ga Gf m) ->
  respects Ga Gf w0 (coro_try c h).
Proof.
  intros H Hh. induction H; simpl.
  - constructor. auto.
  - destruct (h e) as [m|] eqn:He.
    + eapply Hh; eauto.
    + constructor. auto.
  - constructor; auto.
Qed.

Lemma mres_bind {A B} (m : M A) (f : A -> M B) :
  mres Ga Ga m -> (forall a, mres Ga Gf (f a)) -> mres Ga Gf (bind m f).
Proof.
  intros Hm Hf w0 w H. apply respects_bind; auto.
Qed.

Lemma mres_try {A} (m : M A) (h : exn -> option (M A)) :
  mres Ga Ga m ->
  (forall e m', h e = Some m' -> mres Ga Gf m') ->
  mres Ga Gf (try_except m h).
Proof.
  intros Hm Hh w0 w H. apply respects_try; auto.
Qed.

Lemma mres_ret {A} (a : A) : mres Ga Gf (ret a).
Proof. intros w0 w H. constructor. auto. Qed.

Lemma mres_raise {A} e : mres Ga Gf (@raise A e).
Proof. intros w0 w H. constructor. auto. Qed.

Lemma mres_lift {A} (r : exn + A) : mres Ga Gf (lift r).
Proof. destruct r; [apply mres_raise|apply mres_ret]. Qed.

Lemma mres_get {A} (f : Adax -> A) : mres Ga Gf (get f).
Proof. intros w0 w H. constructor. auto. Qed.

Lemma mres_utcnow : mres Ga Gf utcnow.
Proof. intros w0 w H. constructor. auto. Qed.

Lemma mres_await_http rq : mres Ga Gf (await_http rq).
Proof.
  intros w0 w H. constructor; [assumption|].
  intros w' [r|e]; constructor; auto.
Qed.

Lemma mres_asyncio_sleep delay : mres Ga Gf (asyncio_sleep delay).
Proof.
  intros w0 w H. constructor; [assumption|].
  intros w' o; constructor; auto.
Qed.

Lemma mres_event_wait : mres Ga Gf event_wait.
Proof.
  intros w0 w H. unfold event_wait.
  destruct (ev_flag _); constructor; auto.
  intros w' o; constructor; auto.
Qed.

Lemma mres_modify (f : Adax -> Adax) :
  (forall w0 w, Ga w0 w -> Ga w0 (with_self f w)) -> mres Ga Gf (modify f).
Proof. intros Hf w0 w H. constructor. auto. Qed.

(** The executor assigns the token and the timestamp and writes to the
    log; a guarantee that allows these three is kept by every request. *)
Hypothesis Ga_log : forall w0 w f, Ga w0 w -> Ga w0 (with_log f w).
Hypothesis Ga_token :
  forall w0 w v, Ga w0 w -> Ga w0 (with_self (set_access_token v) w).
Hypothesis Ga_stamp :
  forall w0 w, Ga w0 w -> Ga w0 (with_self (set_prev_request (now w)) w).

Lemma mres_logging l msg : mres Ga Gf (logging l msg).
Proof. intros w0 w H. constructor. auto. Qed.

Lemma mres_stamp : mres Ga Gf stamp_prev_request.
Proof. intros w0 w H. constructor. auto. Qed.

Lemma mres_set_access_token v : mres Ga Gf (modify (set_access_token v)).
Proof. apply mres_modify. auto. Qed.
End Guarantee.

(** Breaks a program into its statements; what remains are the assignments
    the guarantee has to allow. *)
Ltac mres_step :=
  first
    [ apply mres_ret; solve [auto]
    | apply mres_raise; solve [auto]
    | apply mres_lift; solve [auto]
    | apply mres_get; solve [auto]
    | apply mres_utcnow; solve [auto]
    | apply mres_await_http; solve [auto]
    | apply mres_asyncio_sleep; solve [auto]
    | apply mres_event_wait; solve [auto]
    | apply mres_logging; solve [auto]
    | apply mres_stamp; solve [auto]
    | apply mres_set_access_token; solve [auto]
    | apply mres_bind; [solve [auto] | | intros ?]
    | apply mres_try; [solve [auto] | | intros ? ? ?]
    | match goal with
      | |- mres _ _ (match ?x with _ => _ end) => destruct x
      | |- mres _ _ (if ?x then _ else _) => destruct x
      | H : match ?x with _ => _ end = Some _ |- _ =>
          destruct x; try discriminate H
      | H : Some _ = Some _ |- _ => injection H as <-
      end
    | assumption ].

Section ExecutorGuarantee.
Variable G : World -> World -> Prop.
Hypothesis G_refl : forall w, G w w.
Hypothesis G_log : forall w0 w f, G w0 w -> G w0 (with_log f w).
Hypothesis G_token :
  forall w0 w v, G w0 w -> G w0 (with_self (set_access_token v) w).
Hypothesis G_stamp :
  forall w0 w, G w0 w -> G w0 (with_self (set_prev_request (now w)) w).

Lemma mres_get_adax_token account_id password retry :
  mres G G (get_adax_token account_id password retry).
Proof.
  induction retry as [|n IH];
    [rewrite get_adax_token_O|rewrite get_adax_token_S];
    unfold get_adax_token_body; repeat mres_step.
Qed.


Lemma mres__request url json_data retry :
  mres G G (_request url json_data retry).
Proof.
  induction retry as [|n IH];
    [rewrite _request_O|rewrite _request_S];
    unfold _request_body, try_request; repeat mres_step.
Qed.
End ExecutorGuarantee.

Section ReadGuarantee.
Variable G : World -> World -> Prop.
Hypothesis G_refl : forall w, G w w.
Hypothesis G_log : forall w0 w f, G w0 w -> G w0 (with_log f w).
Hypothesis G_token :
  forall w0 w v, G w0 w -> G w0 (with_self (set_access_token v) w).
Hypothesis G_stamp :
  forall w0 w, G w0 w -> G w0 (with_self (set_prev_request (now w)) w).
Hypothesis G_homes :
  forall w0 w v, G w0 w -> G w0 (with_self (set_homes v) w).
Hypothesis G_rooms :
  forall w0 w f, G w0 w -> G w0 (with_self (fun a => set_rooms (f a) a) w).
Hypothesis G_devices :
  forall w0 w v, G w0 w -> G w0 (with_self (set_devices v) w).
Hypothesis G_energy :
  forall w0 w v, G w0 w -> G w0 (with_self (set_energy v) w).

Lemma mres_room_assign i key v : mres G G (room_assign i key v).
Proof.
  apply mres_modify; [auto|]. intros w0 w H.
  exact (G_rooms w0 w (fun a => alter (room_set key v) i (_rooms a)) H).
Qed.

Lemma mres_for_each l (body : nat -> M unit) :
  (forall i, mres G G (body i)) -> mres G G (for_each l body).
Proof.
  intros Hb. induction l as [|i l IH]; simpl; repeat mres_step. apply Hb.
Qed.

Lemma mres_ingest_room i : mres G G (ingest_room i).
Proof.
  unfold ingest_room. repeat mres_step; apply mres_room_assign.
Qed.

Lemma mres_fetch_rooms_info : mres G G fetch_rooms_info.
Proof.
  unfold fetch_rooms_info. repeat mres_step.
  - apply mres_modify; auto.
  - apply mres_modify; [auto|]. intros w0 w H.
    exact (G_rooms w0 w (fun _ => _) H).
  - apply mres_modify; auto.
  - apply mres_for_each. apply mres_ingest_room.
Qed.

Lemma mres_fetch_energy_loop rooms room_energy :
  mres G G (fetch_energy_loop rooms room_energy).
Proof.
  revert room_energy.
  induction rooms as [|room rest IH]; intros room_energy; simpl.
  - apply mres_modify; auto.
  - repeat mres_step. apply IH.
Qed.

Lemma mres_fetch_energy_info : mres G G fetch_energy_info.
Proof.
  unfold fetch_energy_info.
  apply mres_bind; [auto | apply mres_get; auto | intros rooms].
  apply mres_fetch_energy_loop.
Qed.

Lemma mres_update : mres G G update.
Proof.
  intros w0 w H. unfold update. destruct (skip_update w).
  - apply mres_logging; auto.
  - revert w0 w H.
    fold (mres G G (do fetch_rooms_info then fetch_energy_info)).
    apply mres_bind; [auto | apply mres_fetch_rooms_info | intros _].
    apply mres_fetch_energy_info.
Qed.
End ReadGuarantee.

(** A guarantee kept by every step, and by the passing of time, holds from
    the start to the end of a run. *)
Lemma run_respects {R} (G : World -> World -> Prop) :
  (forall u v x, G u v -> G v x -> G u x) ->
  (forall w rq d, G w (with_now (wake_time rq (now w) d) w)) ->
  forall (c : coro R) w0 answers,
    respects G G w0 c -> G w0 (final (run c answers)).
Proof.
  intros Htrans Htime c.
  induction c as [w r|w e|w rq k IH]; intros w0 answers H;
    inversion H; subst; simpl; auto.
  assert (Hk : forall d o rest,
             G w0 (final (run (k (with_now (wake_time rq (now w) d) w) o) rest))).
  { intros d o rest. eapply Htrans; [eassumption|].
    eapply Htrans; [apply Htime|]. apply IH. auto. }
  destruct rq; destruct answers as [|[d o] rest]; simpl; auto; apply Hk.
Qed.

Ltac frame_crush :=
  unfold frame_request, frame_read, same_identity, same_snapshots,
    same_writes, stamped, later in *;
  repeat match goal with
         | w : World |- _ => destruct w as [[] ? ? ?]
         end;
  simpl in *; intuition (subst; auto; try congruence; try lia).

Lemma frame_request_refl w : frame_request w w.
Proof. frame_crush. Qed.
Lemma frame_request_log w0 w f : frame_request w0 w -> frame_request w0 (with_log f w).
Proof. frame_crush. Qed.
Lemma frame_request_token w0 w v :
  frame_request w0 w -> frame_request w0 (with_self (set_access_token v) w).
Proof. frame_crush. Qed.
Lemma frame_request_stamp w0 w :
  frame_request w0 w ->
  frame_request w0 (with_self (set_prev_request (now w)) w).
Proof. frame_crush. Qed.

Lemma frame_read_refl w : frame_read w w.
Proof. frame_crush. Qed.
Lemma frame_read_log w0 w f : frame_read w0 w -> frame_read w0 (with_log f w).
Proof. frame_crush. Qed.
Lemma frame_read_token w0 w v :
  frame_read w0 w -> frame_read w0 (with_self (set_access_token v) w).
Proof. frame_crush. Qed.
Lemma frame_read_stamp w0 w :
  frame_read w0 w -> frame_read w0 (with_self (set_prev_request (now w)) w).
Proof. frame_crush. Qed.
Lemma frame_read_homes w0 w v :
  frame_read w0 w -> frame_read w0 (with_self (set_homes v) w).
Proof. frame_crush. Qed.
Lemma frame_read_rooms w0 w f :
  frame_read w0 w -> frame_read w0 (with_self (fun a => set_rooms (f a) a) w).
Proof. frame_crush. Qed.
Lemma frame_read_devices w0 w v :
  frame_read w0 w -> frame_read w0 (with_self (set_devices v) w).
Proof. frame_crush. Qed.
Lemma frame_read_energy w0 w v :
  frame_read w0 w -> frame_read w0 (with_self (set_energy v) w).
Proof. frame_crush. Qed.

Lemma frame_request_read w0 w : frame_request w0 w -> frame_read w0 w.
Proof. frame_crush. Qed.

Lemma frame_read_later w0 w : frame_read w0 w -> later w0 w.
Proof. frame_crush. Qed.

Lemma later_trans u v x : later u v -> later v x -> later u x.
Proof. frame_crush. Qed.

Lemma wake_time_later rq since d : (since <= wake_time rq since d)%Z.
Proof. destruct rq; simpl; lia. Qed.

Lemma later_time w rq d : later w (with_now (wake_time rq (now w) d) w).
Proof.
  pose proof (wake_time_later rq (now w) d).
  unfold later. simpl. auto.
Qed.

(** A request changes nothing of the object but the token and the
    timestamp. *)
Lemma _request_frame url json_data retry :
  mres frame_request frame_request (_request url json_data retry).
Proof.
  apply mres__request;
    auto using frame_request_refl, frame_request_log, frame_request_token,
      frame_request_stamp.
Qed.

(** A read leaves the write side of the object and the loop's tasks alone. *)
Lemma update_frame : mres frame_read frame_read update.
Proof.
  apply mres_update;
    auto using frame_read_refl, frame_read_log, frame_read_token,
      frame_read_stamp, frame_read_homes, frame_read_rooms,
      frame_read_devices, frame_read_energy.
Qed.

(** ** C8: the timestamp of the last request *)





(** ** C2 and C9: the gate of [update] *)

Lemma skip_update_true w :
  (now w - _prev_request (self w) < seconds RATE_LIMIT_SECONDS)%Z
  \/ is_Some (_write_task (self w)) ->
  skip_update w = true.
Proof.
  intros [H|H]; unfold skip_update; apply orb_true_iff.
  - left. apply Z.ltb_lt. exact H.
  - right. apply bool_decide_eq_true. exact H.
Qed.

Lemma skip_update_false w :
  (seconds RATE_LIMIT_SECONDS <= now w - _prev_request (self w))%Z ->
  _write_task (self w) = None ->
  skip_update w = false.
Proof.
  intros H1 H2. unfold skip_update. apply orb_false_iff. split.
  - apply Z.ltb_ge. exact H1.
  - apply bool_decide_eq_false. rewrite H2. intros [x Hx]. discriminate.
Qed.

(** An update that is not skipped opens with a request: its first step takes
    the timestamp and dispatches an HTTP call. *)
Lemma update_first_dispatch w :
  skip_update w = false ->
  exists w' rq k,
    update w = Await w' rq k
    /\ is_http rq = true
    /\ now w' = now w
    /\ _prev_request (self w') = now w.
Proof.
  intros Hskip. unfold update. rewrite Hskip.
  destruct (_request_first_dispatch (content_url (withenergy (self w))) None 1 w)
    as (w' & rq & k & Heq & Hrq & Hnow & Hprev).
  unfold fetch_rooms_info. cbn. unfold bind at 1. rewrite Heq. cbn. eauto 10.
Qed.

(** After an update that was not skipped, and however it ended, the
    timestamp is not before the time of its call. *)
Lemma update_stamps w answers :
  skip_update w = false ->
  (now w <= _prev_request (self (final (run (update w) answers))))%Z.
Proof.
  intros Hskip.
  pose proof (update_frame w w (frame_read_refl w)) as Hres.
  destruct (update_first_dispatch w Hskip)
    as (w' & rq & k & Heq & Hrq & Hnow & Hprev).
  rewrite Heq in *. apply respects_tail in Hres as [_ Hk].
  destruct rq; try discriminate Hrq;
    (destruct answers as [|[d o] rest]; simpl; [lia|];
     match goal with
     | |- context [run (k ?w1 o) rest] =>
         pose proof (run_respects later later_trans later_time (k w1 o) w1 rest
                       (respects_mono _ _ _ _ _ _ frame_read_later
                          frame_read_later (Hk w1 o))) as [_ Hl];
         simpl in Hl; lia
     end).
Qed.

(** C2.  An update called less than [RATE_LIMIT_SECONDS] after the recorded
    request, or while the write slot holds a task, returns at once: it waits
    for nothing (so it makes no network call), changes nothing but the log,
    and [get_homes], [get_rooms], [get_devices] and [get_energy] return the
    snapshots as they are.  In particular, when an update that ran its
    fetches (to whatever end) is followed by a second one less than
    [RATE_LIMIT_SECONDS] after the call of the first, the second is
    skipped. *)
Theorem update_is_gated (w : World) :
  (now w - _prev_request (self w) < seconds RATE_LIMIT_SECONDS)%Z
  \/ is_Some (_write_task (self w)) ->
  let w' := with_log (fun ls => ls ++ [(DEBUG, "Skip update")]) w in
  self w' = self w
  /\ update w = Ret w' tt
  /\ get_homes w = Ret w' (_homes (self w))
  /\ get_rooms w = Ret w' (_rooms (self w))
  /\ get_devices w = Ret w' (_devices (self w))
  /\ get_energy w = Ret w' (_energy (self w))
  /\ forall w1 answers t2,
       skip_update w1 = false ->
       let e := run (update w1) answers in
       (now (final e) <= t2)%Z ->
       (t2 - now w1 < seconds RATE_LIMIT_SECONDS)%Z ->
       let w2 := with_now t2 (final e) in
       update w2
       = Ret (with_log (fun ls => ls ++ [(DEBUG, "Skip update")]) w2) tt.
Proof.
  intros Hgate w'. apply skip_update_true in Hgate.
  assert (Hupd : update w = Ret w' tt).
  { unfold update. rewrite Hgate. reflexivity. }
  split; [reflexivity|]. split; [exact Hupd|].
  unfold get_homes, get_rooms, get_devices, get_energy, bind.
  rewrite Hupd. simpl. repeat (split; [reflexivity|]).
  intros w1 answers t2 Hskip Hafter Hwithin.
  set (w2 := with_now t2 (final (run (update w1) answers))).
  assert (Hgate2 : skip_update w2 = true).
  { apply skip_update_true. left.
    pose proof (update_stamps w1 answers Hskip) as Hst.
    subst w2. simpl. lia. }
  unfold update. rewrite Hgate2. reflexivity.
Qed.

Lemma update_is_gated_witness :
  let w := mkWorld (set_write_task (Some 0%nat) (init "a" "p" false 0))
             (hours 3) [mkTask [] TaskPending] [] in
  get_rooms w
  = Ret (with_log (fun ls => ls ++ [(DEBUG, "Skip update")]) w) [].
Proof.
  intros w.
  assert (H : (now w - _prev_request (self w) < seconds RATE_LIMIT_SECONDS)%Z
              \/ is_Some (_write_task (self w))).
  { right. simpl. eauto. }
  destruct (update_is_gated w H) as (_ & _ & _ & Hrooms & _).
  exact Hrooms.
Defined.

(** C9.  The first update of a client built at [t0], called at any time
    [t >= t0], is not skipped: the timestamp set by the constructor lies two
    hours before [t0] and the write slot is empty.  The update runs the
    fetches, and its first step dispatches an HTTP call, the exchange for the
    token the new client does not have yet. *)
Theorem first_update_not_skipped
    (account_id password : string) (with_energy : bool) (t0 t : time)
    (ts : list task) (lg : list (level * string)) :
  (t0 <= t)%Z ->
  let w := mkWorld (init account_id password with_energy t0) t ts lg in
  skip_update w = false
  /\ update w = (do fetch_rooms_info then fetch_energy_info) w
  /\ exists w' k, update w = Await w' (token_request account_id password) k.
Proof.
  intros Ht w.
  assert (Hskip : skip_update w = false).
  { apply skip_update_false; [|reflexivity].
    subst w. unfold init, hours, seconds, RATE_LIMIT_SECONDS. simpl. lia. }
  split; [exact Hskip|].
  assert (Hupd : update w = (do fetch_rooms_info then fetch_energy_info) w).
  { unfold update. rewrite Hskip. reflexivity. }
  split; [exact Hupd|].
  rewrite Hupd. unfold fetch_rooms_info. cbn. unfold bind at 1.
  destruct (_request_reauthenticates (content_url with_energy) None 1 w
              account_id password eq_refl eq_refl eq_refl) as (w' & k & Heq).
  rewrite Heq. cbn. eauto.
Qed.

Lemma first_update_not_skipped_witness :
  exists w' k,
    update (mkWorld (init "a" "p" false 1000) 1000 [] [])
    = Await w' (token_request "a" "p") k.
Proof.
  destruct (first_update_not_skipped "a" "p" false 1000 1000 [] [])
    as (_ & _ & H); [lia|exact H].
Defined.

(** ** C7: exceptions of the executor on the read path *)










(** ** C5: the energy refresh *)












(** C5, the claim as stated fails.  A client with a token, three rooms and a
    stored energy mapping refreshes: the content endpoint answers with an
    empty body, the energy log of room 1 is delivered, and the answer for
    room 2 has status 200 and a body that is no JSON.  [get_energy] does
    not return the previous mapping: it raises the [JSONDecodeError].  (The
    mapping of the object is the previous one, and room 3 is not asked
    for.) *)
Lemma get_energy_raises_on_unparsable_body :
  let a := set_energy {[1%Z := JInt 5]}
             (set_rooms [Room 1 ∅; Room 2 ∅; Room 3 ∅]
                (set_access_token (Some (JStr "t"))
                   (init "a" "p" false 0))) in
  let e := run (get_energy (mkWorld a 0 [] []))
             [(1%N, ok_answer BodyEmpty);
              (1%N, ok_answer (BodyJson (JInt 10)));
              (1%N, ok_answer BodyMalformed);
              (1%N, ok_answer (BodyJson (JInt 30)))] in
  outcome e = Raised JSONDecodeError
  /\ _energy (self (final e)) = {[1%Z := JInt 5]}
  /\ length (awaited e) = 3
  /\ unused e = [(1%N, ok_answer (BodyJson (JInt 30)))].
Proof. vm_compute. repeat split. Qed.

(** ** Computations without awaits *)

Section PureSteps.
Variable Q : World -> World -> Prop.
Hypothesis Q_refl : forall w, Q w w.
Hypothesis Q_trans : forall u v x, Q u v -> Q v x -> Q u x.

Lemma pure_ret {A} (a : A) : pure_step Q (ret a).
Proof. intros w. simpl. auto. Qed.

Lemma pure_raise {A} e : pure_step Q (@raise A e).
Proof. intros w. simpl. auto. Qed.

Lemma pure_lift {A} (r : exn + A) : pure_step Q (lift r).
Proof. destruct r; [apply pure_raise|apply pure_ret]. Qed.

Lemma pure_get {A} (f : Adax -> A) : pure_step Q (get f).
Proof. intros w. simpl. auto. Qed.

Lemma pure_bind {A B} (m : M A) (f : A -> M B) :
  pure_step Q m -> (forall a, pure_step Q (f a)) -> pure_step Q (bind m f).
Proof.
  intros Hm Hf w. unfold bind. specialize (Hm w).
  destruct (m w) as [w' a|w' e|]; simpl; [|auto|contradiction].
  specialize (Hf a w'). destruct (f a w'); eauto.
Qed.

Lemma pure_for_each l (body : nat -> M unit) :
  (forall i, pure_step Q (body i)) -> pure_step Q (for_each l body).
Proof.
  intros Hb. induction l as [|i l IH]; simpl.
  - apply pure_ret.
  - apply pure_bind; auto.
Qed.

(** A computation without awaits is a single step of the coroutine it
    belongs to. *)
Lemma pure_mres {A} (Ga Gf : World -> World -> Prop) (m : M A) :
  pure_step Q m ->
  (forall w0 w w', Ga w0 w -> Q w w' -> Gf w0 w') ->
  mres Ga Gf m.
Proof.
  intros Hm HG w0 w H. specialize (Hm w).
  destruct (m w); [constructor; eauto|constructor; eauto|contradiction].
Qed.
End PureSteps.

(** ** C10: what a flush does to the snapshots *)

Lemma room_patch_refl json_data r : room_patch json_data r r.
Proof. unfold room_patch. auto. Qed.

Lemma room_patch_trans json_data r1 r2 r3 :
  room_patch json_data r1 r2 -> room_patch json_data r2 r3 ->
  room_patch json_data r1 r3.
Proof.
  intros (Hid1 & Hk1 & Hout1 & Hh1) (Hid2 & Hk2 & Hout2 & Hh2).
  unfold room_patch. repeat split.
  - congruence.
  - intros key H1 H2. rewrite Hk2, Hk1; auto.
  - intros Hnot. rewrite Hout2; [apply Hout1, Hnot|].
    rewrite Hid1. exact Hnot.
  - intros room_j Hfind Hnone.
    rewrite (Hh2 room_j), (Hh1 room_j); auto.
    rewrite Hid1. exact Hfind.
Qed.

Lemma snapshot_patch_refl json_data a : snapshot_patch json_data a a.
Proof.
  unfold snapshot_patch. repeat split; auto.
  apply Forall2_same_length_lookup. split; [reflexivity|].
  intros i x y Hx Hy. rewrite Hx in Hy. injection Hy as <-.
  apply room_patch_refl.
Qed.

Lemma snapshot_patch_trans json_data a1 a2 a3 :
  snapshot_patch json_data a1 a2 -> snapshot_patch json_data a2 a3 ->
  snapshot_patch json_data a1 a3.
Proof.
  intros (H1 & H2 & H3 & H4) (H5 & H6 & H7 & H8).
  unfold snapshot_patch. repeat split; try congruence.
  revert H8. generalize (_rooms a3).
  induction H4 as [|r1 r2 l1 l2 Hr Hl IH]; intros l3 H8;
    inversion H8; subst; constructor; eauto using room_patch_trans.
Qed.

(** Writing one of the two members into the room at index [i], when the batch
    has an entry for that room which allows it. *)
Lemma snapshot_patch_assign json_data a i room_i room_j key v :
  _rooms a !! i = Some room_i ->
  List.find (fun room_j => (room_id room_i =? pr_id room_j)%Z) json_data
  = Some room_j ->
  key = "targetTemperature"
  \/ (key = "heatingEnabled" /\ pr_heatingEnabled room_j <> None) ->
  snapshot_patch json_data a
    (set_rooms (alter (room_set key v) i (_rooms a)) a).
Proof.
  intros Hi Hfind Hkey. unfold snapshot_patch. simpl.
  repeat split; auto.
  apply Forall2_same_length_lookup. split; [rewrite length_alter; reflexivity|].
  intros i' x y Hx Hy.
  destruct (decide (i = i')) as [<-|Hne].
  - rewrite list_lookup_alter_eq, Hx in Hy. simpl in Hy. injection Hy as <-.
    rewrite Hi in Hx. injection Hx as <-.
    unfold room_patch, room_set. simpl. repeat split.
    + intros key' H1 H2. apply lookup_insert_ne.
      destruct Hkey as [-> | [-> _]]; congruence.
    + intros Hnot. exfalso. apply Hnot.
      apply find_some in Hfind as [Hin Heq].
      apply Z.eqb_eq in Heq. rewrite Heq.
      apply list_elem_of_fmap. exists room_j. split; [reflexivity|].
      apply list_elem_of_In. exact Hin.
    + intros room_j' Hfind' Hnone. rewrite Hfind in Hfind'.
      injection Hfind' as <-.
      destruct Hkey as [-> | [-> Hsome]]; [|contradiction].
      apply lookup_insert_ne. discriminate.
  - rewrite list_lookup_alter_ne in Hy by exact Hne.
    rewrite Hx in Hy. injection Hy as <-. apply room_patch_refl.
Qed.

Lemma frame_flush_end_refl json_data w : frame_flush_end json_data w w.
Proof.
  unfold frame_flush_end, same_identity, slot_kept_or_reset.
  repeat (split; [auto|]).
  apply snapshot_patch_refl.
Qed.

Lemma frame_flush_end_trans json_data u v x :
  frame_flush_end json_data u v -> frame_flush_end json_data v x ->
  frame_flush_end json_data u x.
Proof.
  unfold frame_flush_end, same_identity, slot_kept_or_reset.
  intros (H1 & H2 & (H3 & H4 & H5 & H6) & Hs1 & H7)
         (H8 & H9 & (H10 & H11 & H12 & H13) & Hs2 & H14).
  split; [congruence|]. split; [congruence|].
  split; [repeat split; congruence|].
  split; [destruct Hs1 as [Hs1|Hs1], Hs2 as [Hs2|Hs2];
          [left; congruence|right; exact Hs2|right; congruence
          |right; exact Hs2]|].
  eapply snapshot_patch_trans; eauto.
Qed.

Lemma frame_request_flush_end json_data w0 w :
  frame_request w0 w -> frame_flush_end json_data w0 w.
Proof.
  intros (H1 & H2 & H3 & (H4 & H5 & H6 & H7) & (_ & Hslot & _) & _).
  unfold frame_flush_end. split; [exact H1|]. split; [exact H2|].
  split; [exact H3|]. split; [left; exact Hslot|].
  unfold snapshot_patch. rewrite H4, H5, H6, H7.
  repeat (split; [reflexivity|]).
  apply (snapshot_patch_refl json_data (self w0)).
Qed.

(** A step that leaves the clock, the tasks and all of the object but its
    write side alone. *)
Lemma frame_flush_end_writes json_data w (f : Adax -> Adax) :
  (forall a, same_identity a (f a) /\ same_snapshots a (f a)
             /\ slot_kept_or_reset a (f a)) ->
  frame_flush_end json_data w (with_self f w).
Proof.
  intros Hf. destruct (Hf (self w)) as (Hid & (H1 & H2 & H3 & H4) & Hslot).
  unfold frame_flush_end, snapshot_patch. simpl.
  split; [reflexivity|]. split; [reflexivity|]. split; [exact Hid|].
  split; [exact Hslot|].
  rewrite H1, H2, H3, H4. repeat (split; [reflexivity|]).
  apply (snapshot_patch_refl json_data (self w)).
Qed.

Lemma pure_patch_room json_data i :
  pure_step (frame_flush_end json_data) (patch_room json_data i).
Proof.
  intros w. unfold patch_room. cbn.
  destruct (_rooms (self w) !! i) as [room_i|] eqn:Hi; cbn;
    [|apply frame_flush_end_refl].
  destruct (List.find _ json_data) as [room_j|] eqn:Hfind; cbn;
    [|apply frame_flush_end_refl].
  destruct (py_float_of_str (pr_targetTemperature room_j)) as [e|target]; cbn;
    [apply frame_flush_end_refl|].
  assert (H1 : frame_flush_end json_data w
                 (with_self
                    (fun a => set_rooms
                       (alter (room_set "targetTemperature"
                                 (JFloat (float_div target (float_of_Z 100))))
                          i (_rooms a)) a) w)).
  { unfold frame_flush_end, same_identity, slot_kept_or_reset. simpl.
    repeat (split; [auto|]).
    eapply snapshot_patch_assign; eauto. }
  destruct (pr_heatingEnabled room_j) as [enabled|] eqn:Hen; cbn; [|exact H1].
  eapply frame_flush_end_trans; [exact H1|].
  unfold frame_flush_end, same_identity, slot_kept_or_reset. simpl.
  repeat (split; [auto|]).
  eapply (snapshot_patch_assign json_data
            (set_rooms _ (self w)) i (room_set _ _ room_i) room_j).
  - simpl. rewrite list_lookup_alter_eq, Hi. reflexivity.
  - simpl. exact Hfind.
  - right. split; [reflexivity|]. rewrite Hen. discriminate.
Qed.

Lemma pure_after_control json_data result :
  pure_step (frame_flush_end json_data) (after_control json_data result).
Proof.
  pose proof (frame_flush_end_refl json_data) as Hrefl.
  pose proof (frame_flush_end_trans json_data) as Htrans.
  assert (Hmod : forall f : Adax -> Adax,
             (forall a, same_identity a (f a) /\ same_snapshots a (f a)
                        /\ slot_kept_or_reset a (f a)) ->
             pure_step (frame_flush_end json_data) (modify f)).
  { intros f Hf w. simpl. apply frame_flush_end_writes, Hf. }
  assert (Hend : pure_step (frame_flush_end json_data)
                   (do modify (set_pending_writes []) then
                    do event_set then
                    do event_clear then
                    modify (set_write_task None))).
  { unfold event_set, event_clear.
    repeat (apply pure_bind; [assumption| |intros _]);
      apply Hmod; intros [];
      unfold same_identity, same_snapshots, slot_kept_or_reset; simpl;
      auto 10. }
  unfold after_control.
  apply pure_bind; [assumption| |intros _; exact Hend].
  destruct result.
  - apply pure_bind; [assumption|apply pure_get; auto|].
    intros rooms. apply pure_for_each; auto. apply pure_patch_room.
  - apply pure_ret; auto.
Qed.

(** Before its last step a flush changes what a request changes; its last
    step patches the snapshot. *)
Lemma _write_set_room_target_temperature_frame json_data :
  mres frame_request (frame_flush_end json_data)
    (_write_set_room_target_temperature json_data).
Proof.
  pose proof frame_request_refl as Hrefl.
  pose proof (frame_request_flush_end json_data) as Hsub.
  unfold _write_set_room_target_temperature.
  apply mres_bind; [exact Hsub|apply mres_utcnow; auto|intros t].
  apply mres_bind; [exact Hsub|apply mres_get; auto|intros prev].
  apply mres_bind;
    [exact Hsub|apply mres_logging; auto using frame_request_log|intros _].
  apply mres_bind; [exact Hsub|apply mres_asyncio_sleep; auto|intros _].
  apply mres_bind; [exact Hsub|apply _request_frame|intros result].
  eapply pure_mres; [apply pure_after_control|].
  intros w0 w w' H1 H2.
  eapply frame_flush_end_trans; [apply Hsub, H1|exact H2].
Qed.

(** C10.  A flush with the batch [json_data], run to whatever end (its POST
    answered with success, refused, failed, or still outstanding), leaves
    the homes, the devices and the energy mapping as they were, and each room
    of the snapshot relates to what it was by [room_patch]: same id; no
    member other than ["targetTemperature"] and ["heatingEnabled"] touched; a
    room whose id is not in the batch untouched; and ["heatingEnabled"]
    untouched when the entry of the batch carries none. *)
Theorem flush_frame
    (json_data : pending) (w : World) (answers : list (N * io_outcome)) :
  let e := run (_write_set_room_target_temperature json_data w) answers in
  _homes (self (final e)) = _homes (self w)
  /\ _devices (self (final e)) = _devices (self w)
  /\ _energy (self (final e)) = _energy (self w)
  /\ Forall2 (room_patch json_data) (_rooms (self w)) (_rooms (self (final e))).
Proof.
  cbn zeta.
  apply (run_respects (flush_patch json_data)).
  - intros u v x. apply snapshot_patch_trans.
  - intros w' rq d. apply snapshot_patch_refl.
  - eapply respects_mono;
      [| |apply _write_set_room_target_temperature_frame, frame_request_refl].
    + intros u v H. apply frame_request_flush_end with (json_data := json_data)
        in H. apply H.
    + intros u v H. apply H.
Qed.

(** ** Evaluating scenarios *)

(** A fact about the state a scenario ends in is read off by evaluation. *)
Lemma steps_project {A} (f : System -> A) s0 evs s v :
  steps s0 evs = Some s ->
  option_map f (steps s0 evs) = Some v ->
  f s = v.
Proof. intros -> H. simpl in H. congruence. Qed.

Lemma steps_defined s0 evs :
  match steps s0 evs with Some _ => true | None => false end = true ->
  steps s0 evs <> None.
Proof. intros H Hn. rewrite Hn in H. discriminate. Qed.

Lemma steps_snoc s0 evs ev s s' :
  steps s0 evs = Some s -> step s ev = Some s' ->
  steps s0 (evs ++ [ev]) = Some s'.
Proof.
  revert s0. induction evs as [|e evs IH]; intros s0 H Hs; simpl in *.
  - injection H as ->. rewrite Hs. reflexivity.
  - destruct (step s0 e); [eauto|discriminate].
Qed.

(** ** C4: a flush whose request raises *)

(** C4, on the code.  Room 1 is edited once; the flush wakes up and its POST
    times out four times, which uses up the three retries.  The executor
    raises the timeout into the flush, which has no handler: the task ends
    with the exception, and the lines that follow the request do not run.
    The pending set still holds the entry, the write slot still holds the
    task, the event has not been set, the caller of the edit cannot resume,
    and every later update is skipped. *)
Theorem flush_timeout_skips_cleanup :
  exists s,
    steps (boot "a" "p" false 0) flush_times_out = Some s
    /\ tasks (world s)
       = [mkTask [PendingRoom 1 (Some true) "2150"] (TaskFailed TimeoutError)]
    /\ _pending_writes (self (world s)) = [PendingRoom 1 (Some true) "2150"]
    /\ _write_task (self (world s)) = Some 0
    /\ ev_gen (_set_event (self (world s))) = 0
    /\ (forall o, step s (ResumeCaller 0 o) = None)
    /\ (forall t, skip_update (with_now t (world s)) = true).
Proof.
  destruct (steps (boot "a" "p" false 0) flush_times_out) as [s|] eqn:Hs;
    [|exfalso; revert Hs; apply steps_defined; vm_compute; reflexivity].
  exists s. split; [reflexivity|].
  assert (Hslot : _write_task (self (world s)) = Some 0).
  { apply (steps_project (fun s => _write_task (self (world s))) _ _ _ _ Hs).
    vm_compute. reflexivity. }
  split; [apply (steps_project (fun s => tasks (world s)) _ _ _ _ Hs);
          vm_compute; reflexivity|].
  split; [apply (steps_project (fun s => _pending_writes (self (world s)))
                   _ _ _ _ Hs);
          vm_compute; reflexivity|].
  split; [exact Hslot|].
  split; [apply (steps_project (fun s => ev_gen (_set_event (self (world s))))
                   _ _ _ _ Hs);
          vm_compute; reflexivity|].
  split.
  - intros o.
    apply (steps_project (fun s => step s (ResumeCaller 0 o)) _ _ _ _ Hs).
    vm_compute. reflexivity.
  - intros t. unfold skip_update. apply orb_true_iff. right. simpl.
    rewrite Hslot. reflexivity.
Qed.

(** ** C3: an edit while the flush is in flight *)

(** C3, the claim as stated fails.  Rooms 1 and 2 have been edited and the
    flush has dispatched its POST, which carries both entries.  Room 1 is
    edited again before the answer arrives: task 1, although in flight, is
    cancelled; the answer cannot resume it any more, so it never completes,
    never patches the snapshot and never clears the pending set; and the
    entry of room 2 stays in the pending set and is part of the body of the
    next task. *)
Lemma edit_cancels_flush_in_flight :
  exists s1 s2,
    steps (boot "a" "p" false 0) flush_in_flight = Some s1
    /\ task_pending (world s1) 1 = true
    /\ control_posts (requests_of 1 (wire s1))
       = [[PendingRoom 1 (Some true) "2150"; PendingRoom 2 (Some true) "1800"]]
    /\ step s1 (Call (CallSet 1 (float_lit 22 0) (Some false))) = Some s2
    /\ tasks (world s2) !! 1
       = Some (mkTask [PendingRoom 1 (Some true) "2150";
                       PendingRoom 2 (Some true) "1800"] TaskCancelled)
    /\ (forall o, step s2 (ResumeTask 1 o) = None)
    /\ tasks (world s2) !! 2
       = Some (mkTask [PendingRoom 2 (Some true) "1800";
                       PendingRoom 1 (Some false) "2200"] TaskPending).
Proof.
  destruct (steps (boot "a" "p" false 0) flush_in_flight) as [s1|] eqn:Hs1;
    [|exfalso; revert Hs1; apply steps_defined; vm_compute; reflexivity].
  destruct (step s1 (Call (CallSet 1 (float_lit 22 0) (Some false))))
    as [s2|] eqn:Hs2; [|simpl in Hs2; discriminate].
  pose proof (steps_snoc _ _ _ _ _ Hs1 Hs2) as Hs12.
  exists s1, s2. split; [reflexivity|].
  split; [apply (steps_project (fun s => task_pending (world s) 1) _ _ _ _ Hs1);
          vm_compute; reflexivity|].
  split; [apply (steps_project
                   (fun s => control_posts (requests_of 1 (wire s)))
                   _ _ _ _ Hs1);
          vm_compute; reflexivity|].
  split; [exact Hs2|].
  split; [apply (steps_project (fun s => tasks (world s) !! 1) _ _ _ _ Hs12);
          vm_compute; reflexivity|].
  split; [|apply (steps_project (fun s => tasks (world s) !! 2) _ _ _ _ Hs12);
           vm_compute; reflexivity].
  intros o. simpl.
  rewrite (steps_project (fun s => task_pending (world s) 1) _ _ _ false Hs12)
    by (vm_compute; reflexivity).
  destruct (running s2 !! 1); reflexivity.
Qed.

(** ** The loop: tasks *)

Lemma task_pending_in w t : task_pending w t = pending_in (tasks w) t.
Proof. reflexivity. Qed.

Lemma pending_in_lt ts t : pending_in ts t = true -> t < length ts.
Proof.
  unfold pending_in. intros H. apply lookup_lt_is_Some.
  destruct (ts !! t); [eauto|discriminate].
Qed.

Lemma pending_in_cancel ts t0 t :
  pending_in (alter cancel_task t0 ts) t = true ->
  pending_in ts t = true /\ t <> t0.
Proof.
  unfold pending_in. intros H.
  destruct (decide (t = t0)) as [->|Hne].
  - rewrite list_lookup_alter_eq in H.
    destruct (ts !! t0) as [[d []]|]; simpl in H; discriminate.
  - rewrite list_lookup_alter_ne in H by congruence. auto.
Qed.

Lemma pending_in_cancel_ne ts t0 t :
  t <> t0 -> pending_in (alter cancel_task t0 ts) t = pending_in ts t.
Proof.
  intros Hne. unfold pending_in.
  rewrite list_lookup_alter_ne by congruence. reflexivity.
Qed.

Lemma pending_in_finish ts t0 st t :
  st <> TaskPending ->
  pending_in (alter (fun tk => mkTask (task_data tk) st) t0 ts) t = true ->
  pending_in ts t = true /\ t <> t0.
Proof.
  unfold pending_in. intros Hst H.
  destruct (decide (t = t0)) as [->|Hne].
  - rewrite list_lookup_alter_eq in H.
    destruct (ts !! t0) as [[d st0]|]; simpl in H; [|discriminate].
    destruct st; try discriminate. contradiction.
  - rewrite list_lookup_alter_ne in H by congruence. auto.
Qed.

Lemma pending_in_finish_ne ts t0 st t :
  t <> t0 ->
  pending_in (alter (fun tk => mkTask (task_data tk) st) t0 ts) t
  = pending_in ts t.
Proof.
  intros Hne. unfold pending_in.
  rewrite list_lookup_alter_ne by congruence. reflexivity.
Qed.

Lemma pending_in_app ts tk t :
  pending_in (ts ++ [tk]) t
  = if decide (t < length ts) then pending_in ts t
    else if decide (t = length ts)
         then match task_status_of tk with TaskPending => true | _ => false end
         else false.
Proof.
  unfold pending_in. destruct (decide (t < length ts)) as [Hlt|Hge].
  - rewrite lookup_app_l by exact Hlt. reflexivity.
  - rewrite lookup_app_r by lia.
    destruct (decide (t = length ts)) as [->|Hne].
    + rewrite Nat.sub_diag. simpl. destruct tk as [d []]; reflexivity.
    + destruct (t - length ts) as [|n] eqn:Hd; [lia|]. reflexivity.
Qed.

Lemma cancel_slot_length w : length (cancel_slot w) = length (tasks w).
Proof.
  unfold cancel_slot. destruct (_write_task (self w));
    [apply length_alter|reflexivity].
Qed.

(** ** The loop: what an edit does in its first step *)

Lemma set_call_spec w room_id temperature heating_enabled :
  let c := run_call (CallSet room_id temperature heating_enabled) w in
  let w' := coro_world c in
  let kept := other_rooms room_id (_pending_writes (self w)) in
  now w' = now w
  /\ match encode_temperature temperature with
     | inl e =>
         c = Raise w' e
         /\ tasks w' = cancel_slot w
         /\ _write_task (self w') = _write_task (self w)
         /\ _pending_writes (self w') = kept
     | inr target =>
         let data := kept ++ [PendingRoom room_id heating_enabled target] in
         tasks w' = cancel_slot w ++ [mkTask data TaskPending]
         /\ _write_task (self w') = Some (length (tasks w))
         /\ _pending_writes (self w') = data
         /\ (c = Ret w' VNone
             \/ exists g,
                 c = Await w' (EventWait g) (fun w'' _ => Ret w'' VNone))
     end.
Proof.
  unfold run_call, set_room_target_temperature, cancel_slot, other_rooms.
  cbn.
  destruct (_write_task (self w)) as [t|] eqn:Hwt; cbn;
    (destruct (encode_temperature temperature) as [e|target]; cbn;
     [ rewrite ?Hwt; auto
     | unfold event_wait; cbn;
       destruct (ev_flag (_set_event (self w))); cbn;
       rewrite ?length_alter; eauto 10 ]).
Qed.

(** ** The loop: what every reachable state satisfies *)

Lemma frame_flush_end_task_end json_data w0 w :
  frame_flush_end json_data w0 w -> frame_task_end w0 w.
Proof. intros (_ & H1 & _ & H2 & _). split; assumption. Qed.

Lemma frame_request_task_end w0 w : frame_request w0 w -> frame_task_end w0 w.
Proof.
  intros (_ & H1 & _ & _ & (_ & H2 & _) & _). split; [exact H1|left; exact H2].
Qed.

Lemma flush_respects json_data w :
  respects frame_request frame_task_end w
    (_write_set_room_target_temperature json_data w).
Proof.
  eapply respects_mono;
    [| |apply _write_set_room_target_temperature_frame, frame_request_refl].
  - auto.
  - apply frame_flush_end_task_end.
Qed.

Lemma respects_world {R} (Ga Gf G : World -> World -> Prop) w0 (c : coro R) :
  (forall u v, Ga u v -> G u v) ->
  (forall u v, Gf u v -> G u v) ->
  respects Ga Gf w0 c -> G w0 (coro_world c).
Proof. intros Ha Hf H. inversion H; subst; simpl; auto. Qed.

Lemma run_call_read c : is_read c -> mres frame_read frame_read (run_call c).
Proof.
  intros Hc. pose proof frame_read_refl as Hrefl.
  destruct c; try contradiction; unfold run_call, get_homes, get_rooms,
    get_devices, get_energy;
    repeat (apply mres_bind; [solve [auto]| |intros ?]);
    try apply update_frame; try (apply mres_get; solve [auto]);
    apply mres_ret; auto.
Qed.

Lemma run_call_read_world c w :
  is_read c -> frame_read w (coro_world (run_call c w)).
Proof.
  intros Hc. apply (respects_world frame_read frame_read); auto.
  apply run_call_read; [exact Hc|apply frame_read_refl].
Qed.

(** The state a step ends in, as the definition of [step] gives it. *)
Ltac took_step H :=
  match type of H with
  | Some ?x = Some ?y => assert (y = x) as -> by congruence; clear H
  end.

Lemma lookup_settled (cs : list caller_state) i x j y :
  (if decide (i < length cs) then <[i := x]> cs else cs ++ [x]) !! j = Some y ->
  y = x \/ cs !! j = Some y.
Proof.
  destruct (decide (i < length cs)) as [Hlt|Hge]; intros H.
  - destruct (decide (i = j)) as [<-|Hne].
    + rewrite list_lookup_insert_eq in H by exact Hlt. left. congruence.
    + rewrite list_lookup_insert_ne in H by exact Hne. right. exact H.
  - destruct (decide (j < length cs)) as [Hlt|Hge'].
    + rewrite lookup_app_l in H by exact Hlt. right. exact H.
    + rewrite lookup_app_r in H by lia.
      destruct (j - length cs); simpl in H; [left; congruence|discriminate].
Qed.

Lemma caller_result_waiting (c : coro value) sp :
  caller_result c = CallerWaiting sp ->
  exists w rq, c = Await w rq (s_resume sp).
Proof.
  destruct c as [| |w rq k]; simpl; intros H; try discriminate.
  injection H as <-. simpl. eauto.
Qed.

(** The loop takes back a caller that has made a step of a read. *)
Lemma settle_caller_read_inv s i c :
  sys_inv s ->
  respects frame_read frame_read (world s) c ->
  sys_inv (settle_caller s i c).
Proof.
  intros [Hslot Hvalid Hrun Hcall] Hres.
  pose proof (respects_world _ _ frame_read _ _
                (fun u v H => H) (fun u v H => H) Hres)
    as (_ & Htasks & _ & (_ & Hwt & _) & _).
  split; simpl.
  - intros t. rewrite Htasks, Hwt. apply Hslot.
  - intros t. rewrite Htasks, Hwt. apply Hvalid.
  - exact Hrun.
  - intros j sp Hj. apply lookup_settled in Hj as [Hj|Hj]; [|eauto].
    symmetry in Hj. apply caller_result_waiting in Hj as (w & rq & ->).
    apply respects_tail in Hres. apply Hres.
Qed.

(** The loop takes back a task that has made a step. *)
Lemma settle_task_inv s t c :
  sys_inv s ->
  pending_in (tasks (world s)) t = true ->
  respects frame_request frame_task_end (world s) c ->
  sys_inv (settle_task s t c).
Proof.
  intros [Hslot Hvalid Hrun Hcall] Hpend Hres.
  assert (Hend : forall w' st,
             st <> TaskPending ->
             frame_task_end (world s) w' ->
             sys_inv (mkSystem (set_task_status t st w') (delete t (running s))
                        (callers s) (wire s))).
  { intros w' st Hst [Htasks Hwt]. split; simpl.
    - intros t' H. rewrite Htasks in H.
      apply pending_in_finish in H as [H Hne]; [|exact Hst].
      apply Hslot in H. apply Hslot in Hpend. congruence.
    - intros t' H. rewrite length_alter, Htasks. apply Hvalid.
      destruct Hwt as [Hwt|Hwt]; congruence.
    - intros t' sp H. apply lookup_delete_Some in H as [_ H]. eauto.
    - exact Hcall. }
  inversion Hres as [w0 w r Hf|w0 w e Hf|w0 w rq k Ha Hk]; subst; simpl.
  - apply Hend; [discriminate|exact Hf].
  - apply Hend; [discriminate|exact Hf].
  - destruct Ha as (_ & Htasks & _ & _ & (_ & Hwt & _) & _).
    split; simpl.
    + intros t'. rewrite Htasks, Hwt. apply Hslot.
    + intros t'. rewrite Htasks, Hwt. apply Hvalid.
    + intros t' sp H. apply lookup_insert_Some in H as [[_ <-]|[_ H]];
        simpl; eauto.
    + exact Hcall.
Qed.

(** The loop takes back a caller that has made the first step of an edit. *)
Lemma settle_caller_edit_inv s room_id temperature heating_enabled :
  sys_inv s ->
  sys_inv (settle_caller s (length (callers s))
             (run_call (CallSet room_id temperature heating_enabled)
                (world s))).
Proof.
  intros [Hslot Hvalid Hrun Hcall].
  pose proof (set_call_spec (world s) room_id temperature heating_enabled)
    as Hspec.
  cbn zeta in Hspec. destruct Hspec as [_ Hspec].
  assert (Hnone : forall t, pending_in (cancel_slot (world s)) t = false).
  { intros t. destruct (pending_in (cancel_slot (world s)) t) eqn:H; [|reflexivity].
    exfalso. unfold cancel_slot in H.
    destruct (_write_task (self (world s))) as [t0|] eqn:Hwt.
    - apply pending_in_cancel in H as [H Hne]. apply Hslot in H. congruence.
    - apply Hslot in H. congruence. }
  set (c := run_call (CallSet room_id temperature heating_enabled) (world s))
    in *.
  split; simpl.
  - intros t H. destruct (encode_temperature temperature) as [e|target].
    + destruct Hspec as (_ & Htasks & _). rewrite Htasks, Hnone in H.
      discriminate.
    + destruct Hspec as (Htasks & Hwt & _). rewrite Htasks in H.
      rewrite pending_in_app, Hnone, cancel_slot_length in H.
      rewrite Hwt. repeat destruct (decide _); try discriminate. congruence.
  - intros t H. destruct (encode_temperature temperature) as [e|target].
    + destruct Hspec as (_ & Htasks & Hwt & _).
      rewrite Htasks, cancel_slot_length. apply Hvalid. congruence.
    + destruct Hspec as (Htasks & Hwt & _).
      rewrite Htasks, length_app, cancel_slot_length. simpl.
      rewrite Hwt in H. injection H as <-. lia.
  - exact Hrun.
  - intros j sp Hj. apply lookup_settled in Hj as [Hj|Hj]; [|eauto].
    symmetry in Hj. apply caller_result_waiting in Hj as (w & rq & Hc).
    destruct (encode_temperature temperature) as [e|target].
    + destruct Hspec as (Hr & _). rewrite Hr in Hc. discriminate.
    + destruct Hspec as (_ & _ & _ & [Hr|[g Hr]]); rewrite Hr in Hc;
        [discriminate|].
      injection Hc as _ _ <-. intros w' o. constructor. apply frame_read_refl.
Qed.

Lemma sys_inv_step s ev s' : sys_inv s -> step s ev = Some s' -> sys_inv s'.
Proof.
  intros Hinv Hstep. destruct ev as [d|c|t|t o|i o]; cbn [step] in Hstep.
  - injection Hstep as <-. destruct Hinv as [Hslot Hvalid Hrun Hcall].
    split; simpl; auto.
  - injection Hstep as <-.
    destruct c;
      try (apply settle_caller_read_inv;
           [exact Hinv|apply run_call_read; [exact I|apply frame_read_refl]]).
    apply settle_caller_edit_inv. exact Hinv.
  - destruct (tasks (world s) !! t) as [[data []]|] eqn:Ht;
      try discriminate.
    destruct (running s !! t) eqn:Hr; [discriminate|].
    assert (Hs' : s' = settle_task s t
                    (_write_set_room_target_temperature data (world s)))
      by congruence.
    rewrite Hs'. apply settle_task_inv; [exact Hinv| |].
    + unfold pending_in. rewrite Ht. reflexivity.
    + apply flush_respects.
  - destruct (running s !! t) as [sp|] eqn:Hr; [|discriminate].
    destruct (task_pending (world s) t && ready _ _ _) eqn:Hb;
      [|discriminate].
    injection Hstep as <-. apply andb_true_iff in Hb as [Hp _].
    apply settle_task_inv; [exact Hinv|exact Hp|].
    destruct Hinv as [_ _ Hrun _]. eapply Hrun. exact Hr.
  - destruct (callers s !! i) as [[sp| |]|] eqn:Hi; try discriminate.
    destruct (ready _ _ _); [|discriminate].
    injection Hstep as <-. apply settle_caller_read_inv; [exact Hinv|].
    destruct Hinv as [_ _ _ Hcall]. eapply Hcall. exact Hi.
Qed.

Lemma sys_inv_steps evs s s' : sys_inv s -> steps s evs = Some s' -> sys_inv s'.
Proof.
  revert s. induction evs as [|ev evs IH]; intros s Hinv H; simpl in H.
  - injection H as <-. exact Hinv.
  - destruct (step s ev) as [s1|] eqn:Hs; [|discriminate].
    eapply IH; [|exact H]. eapply sys_inv_step; eauto.
Qed.

Lemma sys_inv_boot account_id password with_energy t0 :
  sys_inv (boot account_id password with_energy t0).
Proof.
  split; simpl.
  - intros t H. unfold pending_in in H. rewrite lookup_nil in H. discriminate.
  - discriminate.
  - intros t sp H. rewrite lookup_empty in H. discriminate.
  - intros i sp H. rewrite lookup_nil in H. discriminate.
Qed.

Lemma reachable_inv s : reachable s -> sys_inv s.
Proof.
  intros (a & p & e & t0 & evs & H).
  eapply sys_inv_steps; [apply sys_inv_boot|exact H].
Qed.

Lemma steps_app s evs1 evs2 :
  steps s (evs1 ++ evs2)
  = match steps s evs1 with
    | Some s1 => steps s1 evs2
    | None => None
    end.
Proof.
  revert s. induction evs1 as [|ev evs1 IH]; intros s; simpl; [reflexivity|].
  destruct (step s ev); [apply IH|reflexivity].
Qed.


(** ** C3: a task that is no longer pending *)

Lemma task_requests_app wire1 wire2 :
  task_requests (wire1 ++ wire2) = task_requests wire1 ++ task_requests wire2.
Proof. unfold task_requests. apply omap_app. Qed.

Lemma task_requests_caller i rq : task_requests (dispatched (ByCaller i) rq) = [].
Proof. unfold dispatched. destruct (is_http rq); reflexivity. Qed.

Lemma requests_of_app t wire1 wire2 :
  requests_of t (wire1 ++ wire2) = requests_of t wire1 ++ requests_of t wire2.
Proof. unfold requests_of. rewrite task_requests_app. apply omap_app. Qed.

Lemma requests_of_other t t' rq :
  t' <> t -> requests_of t (dispatched (ByTask t') rq) = [].
Proof.
  intros Hne. unfold dispatched, requests_of.
  destruct (is_http rq); simpl; [|reflexivity].
  destruct (decide (t' = t)); [contradiction|reflexivity].
Qed.

Lemma settle_caller_wire s i c :
  task_requests (wire (settle_caller s i c)) = task_requests (wire s).
Proof.
  simpl. rewrite task_requests_app.
  destruct (coro_request c); simpl;
    [rewrite task_requests_caller|]; apply app_nil_r.
Qed.

Lemma requests_of_task_requests t wire1 wire2 :
  task_requests wire1 = task_requests wire2 ->
  requests_of t wire1 = requests_of t wire2.
Proof. unfold requests_of. intros ->. reflexivity. Qed.

(** The tasks after the first step of a call. *)
Lemma call_tasks s c t :
  sys_inv s ->
  t < length (tasks (world s)) ->
  pending_in (tasks (world s)) t = false ->
  t < length (tasks (coro_world (run_call c (world s))))
  /\ pending_in (tasks (coro_world (run_call c (world s)))) t = false.
Proof.
  intros Hinv Hlt Hdead.
  destruct c as [| | | | |room_id temperature heating_enabled];
    try (match goal with
         | |- context [run_call ?c _] =>
             pose proof (respects_world _ _ frame_read _ _
                           (fun u v H => H) (fun u v H => H)
                           (run_call_read c I _ _ (frame_read_refl (world s))))
               as (_ & Htasks & _)
         end;
         rewrite Htasks; auto).
  pose proof (set_call_spec (world s) room_id temperature heating_enabled)
    as Hspec.
  cbn zeta in Hspec. destruct Hspec as [_ Hspec].
  assert (Hc : pending_in (cancel_slot (world s)) t = false).
  { unfold cancel_slot. destruct (_write_task (self (world s))) as [t0|];
      [|exact Hdead].
    destruct (pending_in (alter cancel_task t0 _) t) eqn:H; [|reflexivity].
    apply pending_in_cancel in H as [H _]. congruence. }
  destruct (encode_temperature temperature) as [e|target].
  - destruct Hspec as (_ & Htasks & _). rewrite Htasks, cancel_slot_length.
    auto.
  - destruct Hspec as (Htasks & _).
    rewrite Htasks, length_app, pending_in_app, cancel_slot_length.
    destruct (decide (t < length (tasks (world s)))); [|contradiction].
    split; [lia|exact Hc].
Qed.

Lemma settle_task_dead s t' c t :
  t' <> t ->
  t < length (tasks (world s)) ->
  pending_in (tasks (world s)) t = false ->
  respects frame_request frame_task_end (world s) c ->
  t < length (tasks (world (settle_task s t' c)))
  /\ pending_in (tasks (world (settle_task s t' c))) t = false
  /\ requests_of t (wire (settle_task s t' c)) = requests_of t (wire s).
Proof.
  intros Hne Hlt Hdead Hres.
  inversion Hres as [w0 w r [Htasks _]|w0 w e [Htasks _]|w0 w rq k Ha Hk];
    subst; simpl.
  - rewrite length_alter, pending_in_finish_ne, Htasks by congruence. auto.
  - rewrite length_alter, pending_in_finish_ne, Htasks by congruence. auto.
  - destruct Ha as (_ & Htasks & _). rewrite Htasks.
    rewrite requests_of_app, requests_of_other, app_nil_r by exact Hne. auto.
Qed.

(** A task of the loop that is not pending stays so, and dispatches nothing
    more. *)
Lemma step_dead s ev s' t :
  sys_inv s ->
  t < length (tasks (world s)) ->
  pending_in (tasks (world s)) t = false ->
  step s ev = Some s' ->
  t < length (tasks (world s'))
  /\ pending_in (tasks (world s')) t = false
  /\ requests_of t (wire s') = requests_of t (wire s).
Proof.
  intros Hinv Hlt Hdead Hstep.
  destruct ev as [d|c|t'|t' o|i o]; cbn [step] in Hstep.
  - injection Hstep as <-. simpl. auto.
  - injection Hstep as <-.
    destruct (call_tasks s c t Hinv Hlt Hdead) as [H1 H2].
    split; [exact H1|]. split; [exact H2|].
    apply requests_of_task_requests, settle_caller_wire.
  - destruct (tasks (world s) !! t') as [[data []]|] eqn:Ht;
      try discriminate.
    destruct (running s !! t') eqn:Hr; [discriminate|].
    assert (Hs' : s' = settle_task s t'
                    (_write_set_room_target_temperature data (world s)))
      by congruence.
    rewrite Hs'. apply settle_task_dead; auto using flush_respects.
    intros ->. unfold pending_in in Hdead. rewrite Ht in Hdead. discriminate.
  - destruct (running s !! t') as [sp|] eqn:Hr; [|discriminate].
    destruct (task_pending (world s) t' && ready _ _ _) eqn:Hb;
      [|discriminate].
    injection Hstep as <-. apply andb_true_iff in Hb as [Hp _].
    apply settle_task_dead; auto.
    + intros ->. rewrite task_pending_in in Hp. congruence.
    + destruct Hinv as [_ _ Hrun _]. eapply Hrun. exact Hr.
  - destruct (callers s !! i) as [[sp| |]|] eqn:Hi; try discriminate.
    destruct (ready _ _ _); [|discriminate].
    injection Hstep as <-.
    destruct Hinv as [_ _ _ Hcall].
    pose proof (respects_world _ _ frame_read _ _
                  (fun u v H => H) (fun u v H => H) (Hcall i sp Hi (world s) o))
      as (_ & Htasks & _).
    simpl. rewrite Htasks. split; [exact Hlt|]. split; [exact Hdead|].
    apply requests_of_task_requests.
    apply (settle_caller_wire s i (s_resume sp (world s) o)).
Qed.

Lemma steps_dead evs s s' t :
  sys_inv s ->
  t < length (tasks (world s)) ->
  pending_in (tasks (world s)) t = false ->
  steps s evs = Some s' ->
  t < length (tasks (world s'))
  /\ pending_in (tasks (world s')) t = false
  /\ requests_of t (wire s') = requests_of t (wire s).
Proof.
  revert s. induction evs as [|ev evs IH]; intros s Hinv Hlt Hdead H;
    simpl in H.
  - injection H as <-. auto.
  - destruct (step s ev) as [s1|] eqn:Hs; [|discriminate].
    destruct (step_dead s ev s1 t Hinv Hlt Hdead Hs) as (H1 & H2 & H3).
    destruct (IH s1 (sys_inv_step _ _ _ Hinv Hs) H1 H2 H) as (H4 & H5 & H6).
    split; [exact H4|]. split; [exact H5|]. congruence.
Qed.

(** A task that is not pending cannot be started or resumed. *)
Lemma dead_task_cannot_step s t :
  pending_in (tasks (world s)) t = false ->
  step s (StartTask t) = None /\ forall o, step s (ResumeTask t o) = None.
Proof.
  intros Hdead. split.
  - simpl. unfold pending_in in Hdead.
    destruct (tasks (world s) !! t) as [[data []]|]; try reflexivity.
    discriminate.
  - intros o. simpl. rewrite task_pending_in, Hdead.
    destruct (running s !! t); reflexivity.
Qed.

(** C3, the claim as the code has it.  In every state the client can reach,
    an edit cancels the task that is in the write slot, whatever that task is
    doing: not yet started, asleep, or waiting for the answer to its POST.
    From then on the task is not pending: it can be neither started nor
    resumed, so it dispatches no request any more (a flush that had not
    reached its request never issues its body) and never runs the steps that
    follow its request (a flush in flight never patches the snapshot nor
    clears the pending set).  The edit keeps the pending entries of the other
    rooms, adds its own, and schedules a new task with that batch. *)
Theorem edit_cancels_the_write_task
    (s s' : System) (t : nat) (room_id : Z) (temperature : float)
    (heating_enabled : option bool) :
  reachable s ->
  _write_task (self (world s)) = Some t ->
  step s (Call (CallSet room_id temperature heating_enabled)) = Some s' ->
  pending_in (tasks (world s')) t = false
  /\ (forall target,
        encode_temperature temperature = inr target ->
        let data := other_rooms room_id (_pending_writes (self (world s)))
                    ++ [PendingRoom room_id heating_enabled target] in
        _write_task (self (world s')) = Some (length (tasks (world s)))
        /\ tasks (world s') !! length (tasks (world s))
           = Some (mkTask data TaskPending))
  /\ forall evs s'',
       steps s' evs = Some s'' ->
       pending_in (tasks (world s'')) t = false
       /\ step s'' (StartTask t) = None
       /\ (forall o, step s'' (ResumeTask t o) = None)
       /\ requests_of t (wire s'') = requests_of t (wire s).
Proof.
  intros Hreach Hwt Hstep. pose proof (reachable_inv s Hreach) as Hinv.
  pose proof (sys_inv_step _ _ _ Hinv Hstep) as Hinv'.
  cbn [step] in Hstep. injection Hstep as <-.
  pose proof (set_call_spec (world s) room_id temperature heating_enabled)
    as Hspec.
  cbn zeta in Hspec. destruct Hspec as [_ Hspec].
  pose proof (inv_slot_valid s Hinv t Hwt) as Hlt.
  assert (Hc : pending_in (cancel_slot (world s)) t = false).
  { unfold cancel_slot. rewrite Hwt.
    destruct (pending_in (alter cancel_task t _) t) eqn:H; [|reflexivity].
    apply pending_in_cancel in H as [_ H]. contradiction. }
  set (w' := coro_world (run_call (CallSet room_id temperature heating_enabled)
                           (world s))) in *.
  assert (Hdead : t < length (tasks w') /\ pending_in (tasks w') t = false).
  { destruct (encode_temperature temperature) as [e|target].
    - destruct Hspec as (_ & Htasks & _).
      rewrite Htasks, cancel_slot_length. auto.
    - destruct Hspec as (Htasks & _).
      rewrite Htasks, length_app, pending_in_app, cancel_slot_length.
      destruct (decide (t < length (tasks (world s)))); [|contradiction].
      split; [lia|exact Hc]. }
  destruct Hdead as [Hlt' Hdead].
  split; [exact Hdead|]. split.
  - intros target Henc. rewrite Henc in Hspec.
    destruct Hspec as (Htasks & Hslot & _). cbn zeta.
    split; [exact Hslot|].
    apply (f_equal (fun ts => ts !! length (tasks (world s)))) in Htasks.
    rewrite lookup_app_r in Htasks by (rewrite cancel_slot_length; lia).
    rewrite cancel_slot_length, Nat.sub_diag in Htasks. exact Htasks.
  - intros evs s'' Hsteps.
    destruct (steps_dead evs _ s'' t Hinv' Hlt' Hdead Hsteps)
      as (_ & Hd & Hw).
    split; [exact Hd|].
    destruct (dead_task_cannot_step s'' t Hd) as [H1 H2].
    split; [exact H1|]. split; [exact H2|].
    rewrite Hw. apply requests_of_task_requests.
    apply (settle_caller_wire s (length (callers s))).
Qed.

Lemma edit_cancels_the_write_task_witness :
  match steps (boot "a" "p" false 0) flush_in_flight with
  | Some s =>
      match step s (Call (CallSet 1 (float_lit 22 0) (Some false))) with
      | Some s' => pending_in (tasks (world s')) 1 = false
      | None => False
      end
  | None => False
  end.
Proof.
  destruct (steps (boot "a" "p" false 0) flush_in_flight) as [s|] eqn:Hs;
    [|exfalso; revert Hs; apply steps_defined; vm_compute; reflexivity].
  destruct (step s (Call (CallSet 1 (float_lit 22 0) (Some false))))
    as [s'|] eqn:Hs'; [|simpl in Hs'; discriminate].
  refine (proj1 (edit_cancels_the_write_task s s' 1 1 (float_lit 22 0)
                   (Some false) _ _ Hs')).
  - exists "a", "p", false, 0%Z, flush_in_flight. exact Hs.
  - apply (steps_project (fun s => _write_task (self (world s))) _ _ _ _ Hs).
    vm_compute. reflexivity.
Defined.

(** ** C1: what a flush posts *)

Section AwaitsOnly.
Variable P : io_request -> Prop.

Lemma awaits_bind {A B} (c : coro A) (f : A -> M B) :
  awaits_only P c ->
  (forall a w, awaits_only P (f a w)) ->
  awaits_only P (coro_bind c f).
Proof. intros H Hf. induction H; simpl; auto; constructor; auto. Qed.

Lemma awaits_try {A} (c : coro A) (h : exn -> option (M A)) :
  awaits_only P c ->
  (forall e m w, h e = Some m -> awaits_only P (m w)) ->
  awaits_only P (coro_try c h).
Proof.
  intros H Hh. induction H; simpl.
  - constructor.
  - destruct (h e) eqn:He; [eapply Hh; eauto|constructor].
  - constructor; auto.
Qed.

Lemma awaits_run {R} (c : coro R) answers :
  awaits_only P c -> Forall P (awaited (run c answers)).
Proof.
  intros H. revert answers. induction H as [| |w rq k Hrq Hk IH];
    intros answers; simpl; auto.
  destruct rq; destruct answers as [|[d o] rest]; simpl; auto.
Qed.
End AwaitsOnly.

Ltac awaits_step :=
  first
    [ assumption
    | match goal with
      | |- m_awaits _ _ => intros ?
      | |- awaits_only _ (bind _ _ _) => apply awaits_bind; [|intros ? ?]
      | |- awaits_only _ (try_except _ _ _) =>
          apply awaits_try; [|intros ? ? ? ?]
      | |- awaits_only _ (await_http _ _) =>
          constructor; [|intros ? []; constructor]
      | |- awaits_only _ (ret _ _) => constructor
      | |- awaits_only _ (raise _ _) => constructor
      | |- awaits_only _ (get _ _) => constructor
      | |- awaits_only _ (modify _ _) => constructor
      | |- awaits_only _ (logging _ _ _) => constructor
      | |- awaits_only _ (stamp_prev_request _) => constructor
      | |- awaits_only _ (utcnow _) => constructor
      | |- awaits_only _ (lift ?r _) => destruct r; constructor
      | |- awaits_only _ ((match ?x with _ => _ end) _) => destruct x
      | |- awaits_only _ ((if ?x then _ else _) _) => destruct x
      | H : match ?x with _ => _ end = Some _ |- _ =>
          destruct x; try discriminate H
      | H : Some _ = Some _ |- _ => injection H as <-
      end ].

Lemma get_adax_token_awaits P account_id password retry :
  P (token_request account_id password) ->
  m_awaits P (get_adax_token account_id password retry).
Proof.
  intros HP. induction retry as [|n IH];
    [rewrite get_adax_token_O|rewrite get_adax_token_S];
    unfold get_adax_token_body; repeat awaits_step; apply IH.
Qed.

Lemma ensure_token_awaits P :
  (forall account_id password, P (token_request account_id password)) ->
  m_awaits P ensure_token.
Proof.
  intros HP. unfold ensure_token. repeat awaits_step.
  apply get_adax_token_awaits. apply HP.
Qed.

Lemma _request_awaits P url json_data retry :
  (forall account_id password, P (token_request account_id password)) ->
  (forall token, P (data_request url json_data token)) ->
  m_awaits P (_request url json_data retry).
Proof.
  intros Htok Hdata. induction retry as [|n IH];
    [rewrite _request_O|rewrite _request_S];
    unfold _request_body, try_request; repeat awaits_step;
    try (apply ensure_token_awaits; exact Htok); try apply IH; auto.
Qed.

Lemma for_each_awaits P l (body : nat -> M unit) :
  (forall i, m_awaits P (body i)) -> m_awaits P (for_each l body).
Proof.
  intros Hb. induction l as [|i l IH]; simpl; repeat awaits_step.
  - apply Hb.
  - apply IH.
Qed.












Lemma ensure_token_granted w g token d rest :
  _access_token (self w) = None ->
  grants_token g token ->
  let e := run (ensure_token w) ((d, Response g) :: rest) in
  outcome e = Returned (Some token)
  /\ awaited e = [token_request (_account_id (self w)) (_password (self w))]
  /\ unused e = rest.
Proof.
  intros H (Hst & o & Hbody & Hlook & Hne).
  cbn zeta. unfold ensure_token, get_adax_token. cbn. rewrite H. cbn.
  rewrite Hst. cbn. unfold json_loads_text. rewrite Hbody. cbn.
  rewrite Hlook. destruct token; try contradiction; auto.
Qed.

(** ** C1: the window of an edit *)

Lemma cancel_slot_none s t :
  sys_inv s -> pending_in (cancel_slot (world s)) t = false.
Proof.
  intros [Hslot _ _ _].
  destruct (pending_in (cancel_slot (world s)) t) eqn:H; [|reflexivity].
  exfalso. unfold cancel_slot in H.
  destruct (_write_task (self (world s))) as [t0|] eqn:Hwt.
  - apply pending_in_cancel in H as [H Hne]. apply Hslot in H. congruence.
  - apply Hslot in H. congruence.
Qed.



(** The first step of a flush: it goes to sleep, and changes the log only. *)
Lemma flush_first_step json_data w :
  exists k,
    _write_set_room_target_temperature json_data w
    = Await (with_log (fun ls => ls ++ [(DEBUG, "Delaying request %.1fs")]) w)
        (Sleep (flush_delay (_prev_request (self w)) (now w))) k.
Proof. unfold _write_set_room_target_temperature. cbn. eauto. Qed.

(** A quiet event that is no edit leaves the tasks, the write slot and the
    pending set as they are. *)
Lemma quiet_step_keeps s ev s' :
  sys_inv s ->
  quiet ev ->
  match ev with Call (CallSet _ _ _) => False | _ => True end ->
  step s ev = Some s' ->
  tasks (world s') = tasks (world s)
  /\ _write_task (self (world s')) = _write_task (self (world s))
  /\ _pending_writes (self (world s')) = _pending_writes (self (world s)).
Proof.
  intros Hinv Hq Hne Hstep.
  destruct ev as [d|c|t|t o|i o]; cbn [step] in Hstep; try contradiction.
  - injection Hstep as <-. simpl. auto.
  - assert (Hc : is_read c) by (destruct c; try exact I; contradiction).
    pose proof (run_call_read_world c (world s) Hc)
      as (_ & Htasks & _ & (_ & Hwt & Hp) & _).
    took_step Hstep. cbn [world settle_caller]. auto.
  - destruct (tasks (world s) !! t) as [[data []]|] eqn:Ht;
      try discriminate.
    destruct (running s !! t) eqn:Hr; [discriminate|].
    took_step Hstep.
    destruct (flush_first_step data (world s)) as [k ->]. simpl. auto.
  - destruct (callers s !! i) as [[sp| |]|] eqn:Hi; try discriminate.
    destruct (ready _ _ _); [|discriminate].
    injection Hstep as <-.
    destruct Hinv as [_ _ _ Hcall].
    pose proof (respects_world _ _ frame_read _ _
                  (fun u v H => H) (fun u v H => H) (Hcall i sp Hi (world s) o))
      as (_ & Htasks & _ & (_ & Hwt & Hp) & _).
    simpl. auto.
Qed.

(** A quiet event puts no request of a task on the wire. *)
Lemma quiet_step_wire s ev s' :
  quiet ev ->
  step s ev = Some s' ->
  task_requests (wire s') = task_requests (wire s).
Proof.
  intros Hq Hstep.
  destruct ev as [d|c|t|t o|i o]; cbn [step] in Hstep; try contradiction.
  - injection Hstep as <-. reflexivity.
  - took_step Hstep. apply settle_caller_wire.
  - destruct (tasks (world s) !! t) as [[data []]|] eqn:Ht;
      try discriminate.
    destruct (running s !! t) eqn:Hr; [discriminate|].
    took_step Hstep.
    destruct (flush_first_step data (world s)) as [k ->]. simpl.
    unfold dispatched. simpl. rewrite app_nil_r. reflexivity.
  - destruct (callers s !! i) as [[sp| |]|] eqn:Hi; try discriminate.
    destruct (ready _ _ _); [|discriminate].
    injection Hstep as <-.
    apply (settle_caller_wire s i (s_resume sp (world s) o)).
Qed.



(** ** C1: time in the loop *)















(** ** C1: the window of an edit, in time *)










(** ** C1: the requests of a task carry its batch *)














(** ** C1: how many POSTs a flush sends *)






(** C1, the claim as stated fails.  Room 1 is set to 21.5 with heating on;
    the flush of this edit sleeps its 0.1 s, gets its token, posts and is
    answered.  At 0.15 s, well within [RATE_LIMIT_SECONDS] of the first edit,
    room 1 is set to 22.0 with heating off; the flush of this edit posts in
    its turn.  Two POSTs have gone to the control endpoint, the first with
    the values of the first edit. *)
Lemma edits_apart_post_twice :
  exists s1 s,
    steps (boot "a" "p" false 0) (take 8 two_edits_apart) = Some s1
    /\ now (world s1) = 150000%Z
    /\ steps (boot "a" "p" false 0) two_edits_apart = Some s
    /\ control_posts (requests_of 0 (wire s))
       = [[PendingRoom 1 (Some true) "2150"]]
    /\ control_posts (requests_of 1 (wire s))
       = [[PendingRoom 1 (Some false) "2200"]]
    /\ length (control_posts ((task_requests (wire s)).*2)) = 2.
Proof.
  destruct (steps (boot "a" "p" false 0) (take 8 two_edits_apart))
    as [s1|] eqn:Hs1;
    [|exfalso; revert Hs1; apply steps_defined; vm_compute; reflexivity].
  destruct (steps (boot "a" "p" false 0) two_edits_apart) as [s|] eqn:Hs;
    [|exfalso; revert Hs; apply steps_defined; vm_compute; reflexivity].
  exists s1, s. split; [reflexivity|].
  split; [apply (steps_project (fun s => now (world s)) _ _ _ _ Hs1);
          vm_compute; reflexivity|].
  split; [reflexivity|].
  split; [apply (steps_project
                   (fun s => control_posts (requests_of 0 (wire s)))
                   _ _ _ _ Hs);
          vm_compute; reflexivity|].
  split; [apply (steps_project
                   (fun s => control_posts (requests_of 1 (wire s)))
                   _ _ _ _ Hs);
          vm_compute; reflexivity|].
  apply (steps_project
           (fun s => length (control_posts ((task_requests (wire s)).*2)))
           _ _ _ _ Hs).
  vm_compute. reflexivity.
Qed.

(* ===================================================================== *)
(** * Further properties of the client *)

(** ** Postconditions *)

Lemma ends_mono {R} (Q1 Q2 : World -> result R -> Prop) c :
  ends Q1 c -> (forall w out, Q1 w out -> Q2 w out) -> ends Q2 c.
Proof. intros H HQ. induction H; constructor; auto. Qed.

Lemma ends_bind {A B} (Q : World -> result B -> Prop) (c : coro A)
    (f : A -> M B) :
  ends (fun w out =>
          match out with
          | Returned a => ends Q (f a w)
          | Raised e => Q w (Raised e)
          | Blocked rq => Q w (Blocked rq)
          end) c ->
  ends Q (coro_bind c f).
Proof. intros H. induction H; simpl; auto; constructor; auto. Qed.

Lemma ends_try {A} (Q : World -> result A -> Prop) (c : coro A)
    (h : exn -> option (M A)) :
  ends (fun w out =>
          match out with
          | Returned a => Q w (Returned a)
          | Raised e =>
              match h e with
              | Some m => ends Q (m w)
              | None => Q w (Raised e)
              end
          | Blocked rq => Q w (Blocked rq)
          end) c ->
  ends Q (coro_try c h).
Proof.
  intros H. induction H as [w r H|w e H|w rq k H _ IH]; simpl.
  - constructor. exact H.
  - destruct (h e); [exact H|constructor; exact H].
  - constructor; auto.
Qed.

Lemma ends_run {R} (Q : World -> result R -> Prop) (c : coro R) answers :
  ends Q c -> Q (final (run c answers)) (outcome (run c answers)).
Proof.
  intros H. revert answers.
  induction H as [w r H|w e H|w rq k H _ IH]; intros answers; simpl; auto.
  destruct rq; try exact H; destruct answers as [|[d o] rest]; simpl; auto.
Qed.



(** Runs a program up to its ends: each statement is executed on the world
    at hand, each await is resumed in any world with any outcome. *)
Ltac scrutinee x :=
  lazymatch x with
  | context [match ?y with _ => _ end] => scrutinee y
  | _ => x
  end.

Ltac exec_step :=
  first
    [ progress cbn
    | progress unfold bind, ret, raise, lift, get, modify, utcnow,
        stamp_prev_request, logging, await_http, try_except
    | match goal with
      | |- _ (Await _ _ _) => constructor; [|intros ? [?|?]]
      | |- _ (Ret _ _) => constructor
      | |- _ (Raise _ _) => constructor
      | |- match ?x with _ => _ end =>
          let y := scrutinee x in destruct y eqn:?
      | |- _ ?c =>
          match c with
          | context [match ?x with _ => _ end] =>
              let y := scrutinee x in destruct y eqn:?
          end
      end ].

(** The token exchange never raises what its [except] clauses catch. *)
Lemma get_adax_token_ends account_id password retry w :
  ends (fun _ out =>
          match out with
          | Raised e => transport e = false
          | _ => True
          end)
    (get_adax_token account_id password retry w).
Proof.
  revert w. induction retry as [|n IH]; intros w;
    [rewrite get_adax_token_O|rewrite get_adax_token_S];
    unfold get_adax_token_body, json_loads_text, py_get; repeat exec_step; auto.
  all: do 2 apply ends_bind; eapply ends_mono; [apply IH|];
    intros w0 [t| |] H; repeat exec_step; auto.
Qed.

Ltac ends_call lemma :=
  repeat match goal with
         | |- ends _ (coro_bind _ _) => apply ends_bind
         | |- ends _ (coro_try _ _) => apply ends_try
         end;
  eapply ends_mono; [apply lemma|]; cbn beta.

Lemma _request_ends url json_data retry w :
  ends request_post (_request url json_data retry w).
Proof.
  revert w. induction retry as [|n IH]; intros w;
    [rewrite _request_O|rewrite _request_S];
    unfold _request_body, ensure_token, try_request;
    repeat first
      [ exec_step
      | ends_call get_adax_token_ends; intros ? [[?|]| ? | ?] ?
      | ends_call IH; intros ? [[?|]| ? | ?] ? ];
    unfold request_post in *;
    try match goal with
        | H : negb (_ =? _)%Z = false |- _ =>
            apply negb_false_iff, Z.eqb_eq in H
        end;
    try (intros; discriminate); auto.
  all: intros; congruence.
Qed.

(** ** Bounds on the number of awaits *)

Lemma within_mono {R} n m (c : coro R) : within n c -> n <= m -> within m c.
Proof.
  intros H. revert m. induction H as [| |n w rq k _ IH]; intros m Hle.
  - constructor.
  - constructor.
  - destruct m as [|m]; [lia|]. constructor. intros w' o. apply IH. lia.
Qed.

Lemma within_bind {A B} n m (c : coro A) (f : A -> M B) :
  within n c -> (forall a w, within m (f a w)) -> within (n + m) (coro_bind c f).
Proof.
  intros H Hf. induction H as [n w r|n w e|n w rq k _ IH]; simpl.
  - apply within_mono with m; [apply Hf|lia].
  - constructor.
  - constructor. exact IH.
Qed.

Lemma within_try {A} n m (c : coro A) (h : exn -> option (M A)) :
  within n c ->
  (forall e mm w, h e = Some mm -> within m (mm w)) ->
  within (n + m) (coro_try c h).
Proof.
  intros H Hh. induction H as [n w r|n w e|n w rq k _ IH]; simpl.
  - constructor.
  - destruct (h e) as [mm|] eqn:He; [|constructor].
    apply within_mono with m; [eapply Hh; exact He|lia].
  - constructor. exact IH.
Qed.

Lemma within_run {R} n (c : coro R) answers :
  within n c -> length (awaited (run c answers)) <= n.
Proof.
  intros H. revert answers.
  induction H as [n w r|n w e|n w rq k _ IH]; intros answers; simpl; try lia.
  destruct rq; destruct answers as [|[d o] rest]; simpl;
    try lia; apply le_n_S, IH.
Qed.

(** With an answer for each of its awaits, a coroutine that waits for HTTP
    calls only comes to its end. *)
Lemma within_run_ends {R} n (c : coro R) answers :
  within n c ->
  awaits_only (fun rq => is_http rq = true) c ->
  n <= length answers ->
  match outcome (run c answers) with
  | Blocked _ => False
  | _ => True
  end.
Proof.
  intros H. revert answers.
  induction H as [n w r|n w e|n w rq k _ IH]; intros answers Ha Hn; simpl;
    try exact I.
  inversion Ha as [| |? ? ? Hrq Hk]; subst.
  destruct answers as [|[d o] rest]; simpl in Hn; [lia|].
  destruct rq; try discriminate Hrq; simpl; apply IH; auto; lia.
Qed.

Lemma within_bind0 {A B} n (c : coro A) (f : A -> M B) :
  within n c -> (forall a w, within 0 (f a w)) -> within n (coro_bind c f).
Proof.
  intros H Hf. rewrite <- (Nat.add_0_r n). apply within_bind; assumption.
Qed.

Ltac within_exec :=
  repeat first
    [ exec_step
    | match goal with
      | |- within _ (Await _ _ _) => constructor; intros ? [?|?]
      end ].

Lemma get_adax_token_within account_id password retry w :
  within (S retry) (get_adax_token account_id password retry w).
Proof.
  revert w. induction retry as [|n IH]; intros w;
    [rewrite get_adax_token_O|rewrite get_adax_token_S];
    unfold get_adax_token_body, json_loads_text, py_get; within_exec.
  all: apply within_bind0;
    [apply within_bind0; [apply IH|intros; within_exec]
    |intros [?|?] ?; within_exec].
Qed.

Lemma ensure_token_within w : within 4 (ensure_token w).
Proof.
  unfold ensure_token. within_exec.
  apply within_bind0; [apply get_adax_token_within|intros; within_exec].
Qed.

Lemma request_bound_pos retry : 5 <= request_bound retry.
Proof. destruct retry; simpl; lia. Qed.

Lemma _request_within url json_data retry w :
  within (request_bound retry) (_request url json_data retry w).
Proof.
  revert w. induction retry as [|n IH]; intros w;
    [rewrite _request_O|rewrite _request_S]; unfold _request_body.
  - within_exec. fold (started w).
    apply (within_bind 4 1); [apply ensure_token_within|].
    intros [token|] w1; [|within_exec].
    unfold try_request. within_exec.
  - unfold bind, stamp_prev_request, logging. cbn [coro_bind].
    fold (started w).
    apply (within_bind 4 (S (2 * request_bound n)));
      [apply ensure_token_within|].
    intros [token|] w1; [|constructor].
    unfold try_request, bind, try_except, await_http. cbn [coro_bind coro_try].
    constructor. intros w' o.
    apply within_bind0; [|intros [?|?] ?; within_exec].
    apply (within_try (request_bound n) (request_bound n + 0)).
    + destruct o as [r|e]; cbn [coro_bind]; [|constructor].
      within_exec. apply within_bind0; [apply IH|intros; within_exec].
    + intros e mm w2 He. rewrite Nat.add_0_r.
      destruct e; try discriminate He; injection He as <-; within_exec;
        apply within_bind0; try apply IH; intros; within_exec.
Qed.

Lemma request_bound_closed retry :
  request_bound retry = 5 * (2 ^ S retry - 1).
Proof.
  induction retry as [|n IH]; [reflexivity|].
  change (request_bound (S n)) with (5 + 2 * request_bound n). rewrite IH.
  assert (H : 1 <= 2 ^ S n) by (apply Nat.neq_0_lt_0, Nat.pow_nonzero; lia).
  change (2 ^ S (S n)) with (2 * 2 ^ S n). lia.
Qed.

(** X1.  The token exchange catches every transport error and timeout: it
    never raises a [ClientError] nor a [TimeoutError] to its caller, however
    its calls end. *)
Theorem get_adax_token_catches_transport_errors
    (account_id password : string) (retry : nat) (w : World)
    (answers : list (N * io_outcome)) (e : exn) :
  outcome (run (get_adax_token account_id password retry w) answers) = Raised e ->
  transport e = false.
Proof.
  intros H.
  pose proof (ends_run _ _ answers
                (get_adax_token_ends account_id password retry w)) as Hq.
  cbn beta in Hq. rewrite H in Hq. exact Hq.
Qed.

Lemma get_adax_token_catches_transport_errors_witness :
  transport JSONDecodeError = false.
Proof.
  apply (get_adax_token_catches_transport_errors "a" "p" 3
           (mkWorld (init "a" "p" false 0) 0 [] [])
           [(1%N, Failure TimeoutError); (1%N, ok_answer BodyMalformed)]).
  reflexivity.
Defined.

(** X2.  The token exchange posts to the auth endpoint at most [retry + 1]
    times, always the same form, and with an answer for each of these posts
    it comes to its end. *)
Theorem get_adax_token_attempts
    (account_id password : string) (retry : nat) (w : World)
    (answers : list (N * io_outcome)) :
  let e := run (get_adax_token account_id password retry w) answers in
  length (awaited e) <= S retry
  /\ Forall (eq (token_request account_id password)) (awaited e)
  /\ (S retry <= length answers ->
      match outcome e with Blocked _ => False | _ => True end).
Proof.
  cbn zeta. split; [apply within_run, get_adax_token_within|]. split.
  - apply awaits_run. apply get_adax_token_awaits. reflexivity.
  - intros Hn.
    apply (within_run_ends (S retry)); [apply get_adax_token_within| |exact Hn].
    apply get_adax_token_awaits. reflexivity.
Qed.

(** X3.  A response the executor returns has status 200, and the timestamp
    of the last request is the time of its completion. *)
Theorem _request_returns_status_200
    (url : string) (json_data : option pending) (retry : nat) (w : World)
    (answers : list (N * io_outcome)) (r : response) :
  let e := run (_request url json_data retry w) answers in
  outcome e = Returned (Some r) ->
  status r = 200%Z /\ _prev_request (self (final e)) = now (final e).
Proof.
  cbn zeta. intros H.
  pose proof (ends_run _ _ answers (_request_ends url json_data retry w)) as Hq.
  rewrite H in Hq. exact Hq.
Qed.

(** X4.  Whenever the executor fails, the object is left without a token, so
    that the next request starts with the token exchange: after a result of
    [None], and after a [ClientError] or a [TimeoutError] it raises. *)
Theorem _request_failure_drops_token
    (url : string) (json_data : option pending) (retry : nat) (w : World)
    (answers : list (N * io_outcome)) :
  let e := run (_request url json_data retry w) answers in
  (outcome e = Returned None
   \/ exists err, outcome e = Raised err /\ transport err = true) ->
  _access_token (self (final e)) = None.
Proof.
  cbn zeta. intros H.
  pose proof (ends_run _ _ answers (_request_ends url json_data retry w)) as Hq.
  destruct H as [H|(err & H & Ht)]; rewrite H in Hq; auto.
Qed.

(** X5.  One call of the executor waits for at most [5 * (2 ^ (retry + 1) - 1)]
    HTTP calls (75 for the default budget of 3, 15 for the budget of 1 the
    reads use), for HTTP calls only, and with an answer for each it comes to
    its end. *)
Theorem _request_calls_bounded
    (url : string) (json_data : option pending) (retry : nat) (w : World)
    (answers : list (N * io_outcome)) :
  let e := run (_request url json_data retry w) answers in
  length (awaited e) <= 5 * (2 ^ S retry - 1)
  /\ Forall (fun rq => is_http rq = true) (awaited e)
  /\ (5 * (2 ^ S retry - 1) <= length answers ->
      match outcome e with Blocked _ => False | _ => True end).
Proof.
  cbn zeta. rewrite <- request_bound_closed.
  assert (Ha : awaits_only (fun rq => is_http rq = true)
                 (_request url json_data retry w)).
  { apply _request_awaits; [reflexivity|]. intros. apply data_request_http. }
  split; [apply within_run, _request_within|]. split.
  - apply awaits_run. exact Ha.
  - intros Hn. apply (within_run_ends (request_bound retry));
      [apply _request_within|exact Ha|exact Hn].
Qed.

Lemma _request_returns_status_200_witness :
  let w := mkWorld (set_access_token (Some (JStr "t")) (init "a" "p" false 0))
             0 [] [] in
  let r := mkResponse 200 "OK" BodyEmpty in
  let e := run (_request control_url (Some []) 3 w) [(7%N, Response r)] in
  status r = 200%Z /\ _prev_request (self (final e)) = now (final e).
Proof.
  intros w r.
  apply (_request_returns_status_200 control_url (Some []) 3 w
           [(7%N, Response r)] r).
  reflexivity.
Defined.

Lemma _request_failure_drops_token_witness :
  let w := mkWorld (set_access_token (Some (JStr "t")) (init "a" "p" false 0))
             0 [] [] in
  let e := run (_request (content_url false) None 1 w)
             [(7%N, Failure (ClientError "429 Too Many Requests"))] in
  outcome e = Raised (ClientError "429 Too Many Requests")
  /\ _access_token (self (final e)) = None.
Proof.
  intros w. split; [reflexivity|].
  apply (_request_failure_drops_token (content_url false) None 1 w
           [(7%N, Failure (ClientError "429 Too Many Requests"))]).
  right. eexists. split; reflexivity.
Defined.

(** ** Runs of the token exchange and of the executor *)

(** A login that the auth endpoint does not answer with status 200 is not
    tried again: the exchange returns [None] after this one post. *)
Theorem get_adax_token_rejected
    (account_id password : string) (retry : nat) (w : World) (d : N)
    (r : response) (rest : list (N * io_outcome)) :
  status r <> 200%Z ->
  let e := run (get_adax_token account_id password retry w)
             ((d, Response r) :: rest) in
  outcome e = Returned None
  /\ awaited e = [token_request account_id password]
  /\ unused e = rest
  /\ self (final e) = self w
  /\ last (log (final e))
     = Some (ERROR, "Adax: Failed to login to retrieve token: %s %s").
Proof.
  intros Hst. apply Z.eqb_neq in Hst.
  destruct retry; [rewrite get_adax_token_O|rewrite get_adax_token_S];
    unfold get_adax_token_body; cbn; rewrite Hst; cbn;
    rewrite last_snoc; auto.
Qed.

Lemma get_adax_token_rejected_witness :
  let w := mkWorld (init "a" "p" false 0) 0 [] [] in
  let e := run (get_adax_token "a" "p" 3 w)
             [(1%N, Response (mkResponse 401 "Unauthorized" BodyEmpty))] in
  outcome e = Returned None /\ length (awaited e) = 1.
Proof.
  intros w.
  destruct (get_adax_token_rejected "a" "p" 3 w 1%N
              (mkResponse 401 "Unauthorized" BodyEmpty) [])
    as (H1 & H2 & _); [discriminate|].
  split; [exact H1|]. rewrite H2. reflexivity.
Defined.

(** What the exchange makes of an answer with status 200: the member
    ["access_token"] of the document, [None] when the document has none (or
    has [null] there); a document that is no object raises an
    [AttributeError], a body that is no JSON a [JSONDecodeError]. *)
Theorem get_adax_token_reads_body
    (account_id password : string) (retry : nat) (w : World) (d : N)
    (r : response) (rest : list (N * io_outcome)) :
  status r = 200%Z ->
  outcome (run (get_adax_token account_id password retry w)
             ((d, Response r) :: rest))
  = match payload r with
    | BodyJson (JObject o) =>
        Returned (match o !! "access_token" with
                  | Some JNull | None => None
                  | Some token => Some token
                  end)
    | BodyJson _ => Raised AttributeError
    | _ => Raised JSONDecodeError
    end.
Proof.
  intros Hst.
  destruct retry; [rewrite get_adax_token_O|rewrite get_adax_token_S];
    unfold get_adax_token_body, json_loads_text, py_get; cbn; rewrite Hst; cbn;
    (destruct (payload r) as [| |[| | | | | |o]]; cbn; try reflexivity;
     destruct (o !! "access_token") as [[]|]; reflexivity).
Qed.

Lemma get_adax_token_reads_body_witness :
  outcome (run (get_adax_token "a" "p" 3
                  (mkWorld (init "a" "p" false 0) 0 [] []))
             [(1%N, ok_answer (BodyJson (JObject {["token" := JStr "t"]})))])
  = Returned None.
Proof.
  unfold ok_answer. rewrite get_adax_token_reads_body; reflexivity.
Defined.

(** A request of a client that has no token and obtains none returns [None]
    without a data call: all it has waited for are the posts of the token
    exchange.  The timestamp is the time the request was called. *)
Theorem _request_without_token
    (url : string) (json_data : option pending) (retry : nat) (w : World)
    (answers : list (N * io_outcome)) :
  _access_token (self w) = None ->
  let t := run (get_adax_token (_account_id (self w)) (_password (self w)) 3
                  (started w)) answers in
  let e := run (_request url json_data retry w) answers in
  outcome t = Returned None ->
  outcome e = Returned None
  /\ awaited e = awaited t
  /\ Forall (eq (token_request (_account_id (self w)) (_password (self w))))
       (awaited e)
  /\ unused e = unused t
  /\ _access_token (self (final e)) = None.
Proof.
  intros Hnone t e Hout. subst t e.
  assert (Hrun : awaited (run (_request url json_data retry w) answers)
                 = awaited (run (get_adax_token (_account_id (self w))
                                   (_password (self w)) 3 (started w)) answers)
                 /\ outcome (run (_request url json_data retry w) answers)
                    = Returned None
                 /\ unused (run (_request url json_data retry w) answers)
                    = unused (run (get_adax_token (_account_id (self w))
                                   (_password (self w)) 3 (started w)) answers)
                 /\ _access_token
                      (self (final (run (_request url json_data retry w)
                                      answers))) = None).
  { destruct retry; [rewrite _request_O|rewrite _request_S];
      unfold _request_body, ensure_token; cbn; rewrite Hnone; cbn;
      fold (started w); rewrite ?run_bind, ?run_bind_M; unfold run_then;
      cbn; rewrite Hout; cbn; rewrite !app_nil_r; auto. }
  destruct Hrun as (Ha & Ho & Hu & Ht).
  split; [exact Ho|]. split; [exact Ha|]. split; [|split; assumption].
  rewrite Ha. apply awaits_run, get_adax_token_awaits. reflexivity.
Qed.

Lemma _request_without_token_witness :
  let w := mkWorld (init "a" "p" false 0) 0 [] [] in
  let e := run (_request (content_url false) None 1 w)
             [(1%N, Response (mkResponse 401 "Unauthorized" BodyEmpty))] in
  outcome e = Returned None /\ length (awaited e) = 1.
Proof.
  intros w.
  destruct (_request_without_token (content_url false) None 1 w
              [(1%N, Response (mkResponse 401 "Unauthorized" BodyEmpty))])
    as (H1 & H2 & _); [reflexivity|reflexivity|].
  split; [exact H1|]. rewrite H2. reflexivity.
Defined.

(** A [ClientError] whose text contains ["429"] is raised at once, with
    retries left or not: the data call is the last thing the request waited
    for, the token is dropped and the error is logged. *)
Theorem client_error_429_not_retried
    (url : string) (json_data : option pending) (retry : nat) (w : World)
    (token : json) (answers rest : list (N * io_outcome)) (d : N)
    (msg : string) :
  contains "429" msg = true ->
  outcome (run (ensure_token (started w)) answers) = Returned (Some token) ->
  unused (run (ensure_token (started w)) answers)
  = (d, Failure (ClientError msg)) :: rest ->
  let e := run (_request url json_data retry w) answers in
  outcome e = Raised (ClientError msg)
  /\ awaited e = awaited (run (ensure_token (started w)) answers)
                 ++ [data_request url json_data token]
  /\ unused e = rest
  /\ _access_token (self (final e)) = None
  /\ last (log (final e)) = Some (ERROR, "Error connecting to Adax: %s ").
Proof.
  intros Hmsg Hout Hun e. subst e.
  destruct retry as [|n]; [rewrite _request_O|rewrite _request_S];
    unfold _request_body; cbn; fold (started w); rewrite run_bind_M;
    unfold run_then; rewrite Hout, Hun; cbn;
    unfold try_request; cbn; rewrite ?Hmsg; cbn;
    (destruct json_data; cbn; rewrite last_snoc; auto).
Qed.

Lemma client_error_429_not_retried_witness :
  let w := mkWorld (set_access_token (Some (JStr "t")) (init "a" "p" false 0))
             0 [] [] in
  let e := run (_request control_url (Some []) 3 w)
             [(7%N, Failure (ClientError "429, message='Too Many Requests'"))] in
  outcome e = Raised (ClientError "429, message='Too Many Requests'")
  /\ length (awaited e) = 1.
Proof.
  intros w.
  destruct (client_error_429_not_retried control_url (Some []) 3 w (JStr "t")
              [(7%N, Failure (ClientError "429, message='Too Many Requests'"))]
              [] 7%N "429, message='Too Many Requests'")
    as (H1 & H2 & _); try reflexivity.
  split; [exact H1|]. rewrite H2. reflexivity.
Defined.

(** ** The retry budget *)

Lemma data_calls_app rqs1 rqs2 :
  data_calls (rqs1 ++ rqs2) = data_calls rqs1 + data_calls rqs2.
Proof. unfold data_calls. rewrite List.filter_app, length_app. reflexivity. Qed.

Lemma storm_run url json_data retry : forall w rest,
  _access_token (self w) = None ->
  let e := run (_request url json_data retry w) (storm retry ++ rest) in
  outcome e = Raised TimeoutError
  /\ unused e = rest
  /\ _access_token (self (final e)) = None
  /\ data_calls (awaited e) = 2 ^ S retry - 1.
Proof.
  induction retry as [|n IH]; intros w rest Htok; cbn zeta.
  - rewrite _request_O. unfold _request_body, ensure_token. cbn.
    rewrite Htok. unfold get_adax_token. cbn. unfold try_request. cbn.
    destruct json_data; cbn; auto.
  - rewrite _request_S. unfold _request_body. cbn. fold (started w).
    rewrite run_bind_M. unfold run_then.
    assert (Hg : grants_token (mkResponse 200 "OK"
                   (BodyJson (JObject {["access_token" := JStr "t"]})))
                   (JStr "t")).
    { split; [reflexivity|]. eexists. split; [reflexivity|].
      split; [reflexivity|discriminate]. }
    destruct (ensure_token_granted (started w) _ _ 0%N
                ((0%N, server_error) :: (storm n ++ storm n) ++ rest)
                Htok Hg) as (Ho & Ha & Hu).
    fold token_answer in Ho, Ha, Hu. rewrite Ho, Hu, Ha.
    set (w1 := final (run (ensure_token (started w)) _)). clearbody w1.
    clear Ho Ha Hu. cbn. unfold try_request. rewrite <- app_assoc.
    destruct json_data as [data|]; cbn.
    + set (w2 := with_self (set_access_token None) _).
      assert (H2 : _access_token (self w2) = None) by reflexivity.
      clearbody w2.
      rewrite !run_bind, !run_try, !run_bind_M. unfold run_then, run_catch.
      destruct (IH w2 (storm n ++ rest) H2) as (Ho & Hu & Ht & Hc).
      cbn zeta in *.
      destruct (run (_request url (Some data) n w2) _) as [wf1 o1 a1 u1].
      cbn [outcome unused final awaited] in Ho, Hu, Ht, Hc. subst o1 u1. cbn.
      rewrite run_bind_M. unfold run_then.
      set (w3 := with_self (set_access_token None) wf1).
      assert (H3 : _access_token (self w3) = None) by reflexivity.
      clearbody w3.
      destruct (IH w3 rest H3) as (Ho' & Hu' & Ht' & Hc').
      destruct (run (_request url (Some data) n w3) _) as [wf2 o2 a2 u2].
      cbn [outcome unused final awaited] in Ho', Hu', Ht', Hc'. subst o2 u2.
      cbn. repeat split; auto.
      unfold data_calls in *. rewrite List.filter_app, length_app, Hc, Hc'.
      pose proof (Nat.pow_nonzero 2 n). cbn [Nat.pow]. lia.
    + set (w2 := with_self (set_access_token None) _).
      assert (H2 : _access_token (self w2) = None) by reflexivity.
      clearbody w2.
      rewrite !run_bind, !run_try, !run_bind_M. unfold run_then, run_catch.
      destruct (IH w2 (storm n ++ rest) H2) as (Ho & Hu & Ht & Hc).
      cbn zeta in *.
      destruct (run (_request url None n w2) _) as [wf1 o1 a1 u1].
      cbn [outcome unused final awaited] in Ho, Hu, Ht, Hc. subst o1 u1. cbn.
      rewrite run_bind_M. unfold run_then.
      set (w3 := with_self (set_access_token None) wf1).
      assert (H3 : _access_token (self w3) = None) by reflexivity.
      clearbody w3.
      destruct (IH w3 rest H3) as (Ho' & Hu' & Ht' & Hc').
      destruct (run (_request url None n w3) _) as [wf2 o2 a2 u2].
      cbn [outcome unused final awaited] in Ho', Hu', Ht', Hc'. subst o2 u2.
      cbn. repeat split; auto.
      unfold data_calls in *. rewrite List.filter_app, length_app, Hc, Hc'.
      pose proof (Nat.pow_nonzero 2 n). cbn [Nat.pow]. lia.
Qed.

(** The retry budget is no bound on the number of data calls.  The retry
    that follows a status other than 200 is called inside the [try]
    statement, so a timeout that ends it is caught by the [except] clause of
    the same call, which starts the retry once more: on the answers [storm]
    a request with budget [retry] makes [2 ^ (retry + 1) - 1] data calls
    (3 for the budget of 1 the reads use, 15 for the budget of 3 of a flush)
    before it raises the timeout. *)
Theorem retry_budget_doubles
    (url : string) (json_data : option pending) (retry : nat) (w : World)
    (rest : list (N * io_outcome)) :
  _access_token (self w) = None ->
  let e := run (_request url json_data retry w) (storm retry ++ rest) in
  outcome e = Raised TimeoutError
  /\ unused e = rest
  /\ data_calls (awaited e) = 2 ^ S retry - 1.
Proof.
  intros Htok.
  destruct (storm_run url json_data retry w rest Htok) as (H1 & H2 & _ & H4).
  cbn zeta. auto.
Qed.

Lemma retry_budget_doubles_witness :
  let w := mkWorld (init "a" "p" false 0) 0 [] [] in
  let e := run (_request (content_url false) None 1 w) (storm 1) in
  outcome e = Raised TimeoutError /\ data_calls (awaited e) = 3.
Proof.
  intros w.
  destruct (retry_budget_doubles (content_url false) None 1 w [])
    as (H1 & _ & H3); [reflexivity|].
  rewrite app_nil_r in H1, H3. split; [exact H1|exact H3].
Defined.

(** ** An edit that fails *)

Lemma no_edit_steps_keep evs : forall s s',
  sys_inv s ->
  (forall t, pending_in (tasks (world s)) t = false) ->
  Forall no_edit evs ->
  steps s evs = Some s' ->
  tasks (world s') = tasks (world s)
  /\ _write_task (self (world s')) = _write_task (self (world s))
  /\ task_requests (wire s') = task_requests (wire s).
Proof.
  induction evs as [|ev evs IH]; intros s s' Hinv Hdead Hne Hsteps;
    simpl in Hsteps.
  - injection Hsteps as <-. auto.
  - destruct (step s ev) as [s1|] eqn:Hstep; [|discriminate].
    inversion Hne as [|? ? Hne1 Hne2]; subst.
    assert (Hq : quiet ev).
    { destruct ev as [d|c|t|t o|i o]; try exact I.
      destruct (dead_task_cannot_step s t (Hdead t)) as [_ H].
      rewrite H in Hstep. discriminate. }
    destruct (quiet_step_keeps s ev s1 Hinv Hq Hne1 Hstep) as (H1 & H2 & _).
    pose proof (quiet_step_wire s ev s1 Hq Hstep) as H3.
    destruct (IH s1 s' (sys_inv_step _ _ _ Hinv Hstep)) as (H4 & H5 & H6);
      auto.
    + intros t. rewrite H1. apply Hdead.
    + split; [congruence|]. split; congruence.
Qed.

(** An edit whose temperature [int] refuses (a NaN, an infinity) raises
    after it has cancelled the task in the write slot and before it makes a
    new one.  The slot still names the cancelled task, and no task is left
    to empty it: as long as no further edit is made, every [update] is
    skipped and no task sends a request. *)
Theorem failed_edit_blocks_reads
    (s s1 : System) (t : nat) (room_id : Z) (temperature : float)
    (heating_enabled : option bool) (e : exn) :
  reachable s ->
  _write_task (self (world s)) = Some t ->
  encode_temperature temperature = inl e ->
  step s (Call (CallSet room_id temperature heating_enabled)) = Some s1 ->
  callers s1 !! length (callers s) = Some (CallerRaised e)
  /\ _write_task (self (world s1)) = Some t
  /\ (forall t', pending_in (tasks (world s1)) t' = false)
  /\ forall evs s2,
       Forall no_edit evs ->
       steps s1 evs = Some s2 ->
       skip_update (world s2) = true
       /\ task_requests (wire s2) = task_requests (wire s1).
Proof.
  intros Hreach Hwt Henc Hstep.
  pose proof (reachable_inv s Hreach) as Hinv.
  pose proof (sys_inv_step _ _ _ Hinv Hstep) as Hinv1.
  cbn [step] in Hstep. took_step Hstep.
  pose proof (set_call_spec (world s) room_id temperature heating_enabled)
    as Hspec.
  cbn zeta in Hspec. destruct Hspec as [_ Hspec]. rewrite Henc in Hspec.
  destruct Hspec as (Hc & Htasks & Hslot & _).
  assert (Hdead : forall t', pending_in
                    (tasks (world (settle_caller s (length (callers s))
                       (run_call (CallSet room_id temperature heating_enabled)
                          (world s))))) t' = false).
  { intros t'. cbn [world settle_caller]. rewrite Htasks.
    apply cancel_slot_none, Hinv. }
  assert (Hslot1 : _write_task
                     (self (world (settle_caller s (length (callers s))
                        (run_call (CallSet room_id temperature heating_enabled)
                           (world s))))) = Some t).
  { cbn [world settle_caller]. rewrite Hslot. exact Hwt. }
  split; [|split; [exact Hslot1|split; [exact Hdead|]]].
  - cbn [callers settle_caller].
    destruct (decide (length (callers s) < length (callers s))); [lia|].
    rewrite lookup_app_r, Nat.sub_diag by lia. rewrite Hc. reflexivity.
  - intros evs s2 Hne Hsteps.
    destruct (no_edit_steps_keep evs _ s2 Hinv1 Hdead Hne Hsteps)
      as (_ & H2 & H3).
    split; [|exact H3].
    unfold skip_update. rewrite H2, Hslot1. apply orb_true_r.
Qed.

Lemma failed_edit_blocks_reads_witness :
  match steps (boot "a" "p" false 0)
          [Call (CallSet 1 (float_lit 215 1) (Some true))] with
  | Some s =>
      match step s (Call (CallSet 1 S754_nan (Some true))) with
      | Some s1 =>
          callers s1 !! length (callers s) = Some (CallerRaised ValueError)
          /\ _write_task (self (world s1)) = Some 0
      | None => False
      end
  | None => False
  end.
Proof.
  destruct (steps (boot "a" "p" false 0)
              [Call (CallSet 1 (float_lit 215 1) (Some true))])
    as [s|] eqn:Hs;
    [|exfalso; revert Hs; apply steps_defined; vm_compute; reflexivity].
  destruct (step s (Call (CallSet 1 S754_nan (Some true))))
    as [s1|] eqn:Hs1; [|simpl in Hs1; discriminate].
  destruct (failed_edit_blocks_reads s s1 0 1 S754_nan (Some true) ValueError)
    as (H1 & H2 & _); auto.
  - exists "a", "p", false, 0%Z,
      [Call (CallSet 1 (float_lit 215 1) (Some true))]. exact Hs.
  - apply (steps_project (fun s => _write_task (self (world s))) _ _ _ _ Hs).
    vm_compute. reflexivity.
Defined.

(** ** The delay of a flush *)

(** A flush that is started goes to sleep without sending anything, and the
    loop cannot resume it before 0.1 s have passed, nor before the rate-limit
    window that follows the last request (as the flush found it when it
    started) is over. *)
Theorem flush_sleeps_out_the_window (s s1 : System) (t : nat) :
  step s (StartTask t) = Some s1 ->
  exists sp,
    running s1 !! t = Some sp
    /\ s_request sp
       = Sleep (flush_delay (_prev_request (self (world s))) (now (world s)))
    /\ s_since sp = now (world s)
    /\ wire s1 = wire s
    /\ forall s2 o,
         running s2 !! t = Some sp ->
         (now (world s2) < now (world s) + 100000
          \/ now (world s2)
             < _prev_request (self (world s)) + seconds RATE_LIMIT_SECONDS)%Z ->
         step s2 (ResumeTask t o) = None.
Proof.
  intros Hstep. cbn [step] in Hstep.
  destruct (tasks (world s) !! t) as [[data []]|] eqn:Ht; try discriminate.
  destruct (running s !! t) eqn:Hr; [discriminate|].
  took_step Hstep.
  destruct (flush_first_step data (world s)) as [k ->]. simpl.
  eexists. split; [apply lookup_insert_eq|]. simpl.
  split; [reflexivity|]. split; [reflexivity|].
  split; [unfold dispatched; simpl; apply app_nil_r|].
  intros s2 o Hsp Hearly. rewrite Hsp. simpl.
  assert (Hready : (now (world s)
                    + flush_delay (_prev_request (self (world s))) (now (world s))
                    <=? now (world s2))%Z = false).
  { apply Z.leb_gt. unfold flush_delay. lia. }
  rewrite Hready, andb_false_r. reflexivity.
Qed.

Lemma flush_sleeps_out_the_window_witness :
  match steps (boot "a" "p" false 0)
          [Call (CallSet 1 (float_lit 215 1) (Some true))] with
  | Some s =>
      match step s (StartTask 0) with
      | Some s1 => wire s1 = wire s
      | None => False
      end
  | None => False
  end.
Proof.
  destruct (steps (boot "a" "p" false 0)
              [Call (CallSet 1 (float_lit 215 1) (Some true))])
    as [s|] eqn:Hs;
    [|exfalso; revert Hs; apply steps_defined; vm_compute; reflexivity].
  destruct (step s (StartTask 0)) as [s1|] eqn:Hs1.
  - destruct (flush_sleeps_out_the_window s s1 0 Hs1) as (sp & _ & _ & _ & H & _).
    exact H.
  - assert (H : steps (boot "a" "p" false 0)
                   ([Call (CallSet 1 (float_lit 215 1) (Some true))]
                    ++ [StartTask 0]) <> None)
      by (apply steps_defined; vm_compute; reflexivity).
    apply H. rewrite steps_app, Hs. cbn [steps]. rewrite Hs1. reflexivity.
Defined.

(** ** The write path in every reachable state *)

Lemma finishes_of_respects {R} (Ga Gf Gr Ge : World -> World -> Prop) w0
    (c : coro R) :
  (forall u v, Gf u v -> Gr u v) ->
  (forall u v, Gf u v -> Ge u v) ->
  respects Ga Gf w0 c -> finishes Ga Gr Ge w0 c.
Proof. intros Hr He H. induction H; constructor; auto. Qed.

Lemma finishes_tail {R} Ga Gr Ge w0 w rq (k : World -> io_outcome -> coro R) :
  finishes Ga Gr Ge w0 (Await w rq k) ->
  Ga w0 w /\ forall w' o, finishes Ga Gr Ge w' (k w' o).
Proof. intros H. inversion H; subst. split; auto. Qed.

Lemma finishes_bind {A B} (Ga Gr Ge : World -> World -> Prop) w0
    (c : coro A) (f : A -> M B) :
  finishes Ga Ga Ge w0 c ->
  (forall a u v, Ga u v -> finishes Ga Gr Ge u (f a v)) ->
  finishes Ga Gr Ge w0 (coro_bind c f).
Proof.
  intros Hc Hf.
  induction Hc as [u v a Hv|u v e Hv|u v rq k Hv Hk IH]; simpl.
  - apply Hf. exact Hv.
  - constructor. exact Hv.
  - constructor; [exact Hv|]. intros w' o. apply IH.
Qed.

Lemma mfin_bind {A B} (Ga Gr Ge : World -> World -> Prop) (m : M A)
    (f : A -> M B) :
  mfin Ga Ga Ge m -> (forall a, mfin Ga Gr Ge (f a)) -> mfin Ga Gr Ge (bind m f).
Proof.
  intros Hm Hf w0 w H. unfold bind. apply finishes_bind; [apply Hm, H|].
  intros a u v Huv. apply Hf, Huv.
Qed.

Lemma mfin_of_mres {R} (Ga Gf Gr Ge : World -> World -> Prop) (m : M R) :
  (forall u v, Gf u v -> Gr u v) ->
  (forall u v, Gf u v -> Ge u v) ->
  mres Ga Gf m -> mfin Ga Gr Ge m.
Proof.
  intros Hr He H w0 w Hw. apply (finishes_of_respects Ga Gf); auto.
Qed.

Lemma writes_kept_refl w : writes_kept w w.
Proof. unfold writes_kept, same_writes. auto. Qed.

Lemma writes_kept_trans u v x : writes_kept u v -> writes_kept v x -> writes_kept u x.
Proof.
  unfold writes_kept, same_writes.
  intros (H1 & H2 & H3 & H4) (H5 & H6 & H7 & H8).
  repeat split; congruence.
Qed.

Lemma frame_request_writes_kept w0 w : frame_request w0 w -> writes_kept w0 w.
Proof. intros (_ & H1 & _ & _ & H2 & _). split; assumption. Qed.

Lemma frame_read_writes_kept w0 w : frame_read w0 w -> writes_kept w0 w.
Proof. intros (_ & H1 & _ & H2 & _). split; assumption. Qed.

Lemma pure_patch_room_writes json_data i :
  pure_step writes_kept (patch_room json_data i).
Proof.
  intros w. unfold patch_room. cbn.
  destruct (_rooms (self w) !! i) as [room_i|]; cbn;
    [|apply writes_kept_refl].
  destruct (List.find _ json_data) as [room_j|]; cbn;
    [|apply writes_kept_refl].
  destruct (py_float_of_str (pr_targetTemperature room_j)) as [e|target]; cbn;
    [apply writes_kept_refl|].
  destruct (pr_heatingEnabled room_j) as [enabled|]; cbn;
    unfold writes_kept, same_writes; simpl; auto.
Qed.

(** How the lines of a flush that follow its request end. *)
Lemma after_control_cases json_data result w :
  match after_control json_data result w with
  | Ret w' _ => flush_done w w'
  | Raise w' _ => writes_kept w w'
  | Await _ _ _ => False
  end.
Proof.
  unfold after_control. destruct result as [r|].
  - unfold bind at 1. unfold bind at 1. cbn [get coro_bind].
    pose proof (pure_for_each writes_kept writes_kept_refl writes_kept_trans
                  (seq 0 (length (_rooms (self w)))) (patch_room json_data)
                  (pure_patch_room_writes json_data) w) as Hloop.
    destruct (for_each _ _ w) as [w1 []|w1 e|]; cbn; [|exact Hloop|exact Hloop].
    destruct Hloop as (Htasks & Hev & _ & _).
    unfold flush_done. simpl. rewrite Htasks, Hev. auto.
  - cbn. unfold flush_done. simpl. auto.
Qed.

Lemma flush_finishes json_data w :
  finishes frame_request flush_done writes_kept w
    (_write_set_room_target_temperature json_data w).
Proof.
  assert (Hm : forall R (m : M R),
             mres frame_request frame_request m ->
             mfin frame_request frame_request writes_kept m).
  { intros R m. apply mfin_of_mres; auto using frame_request_writes_kept. }
  pose proof frame_request_refl as Hrefl.
  assert (Hsub : forall u v, frame_request u v -> frame_request u v) by auto.
  unfold _write_set_room_target_temperature.
  apply mfin_bind; [apply Hm, mres_utcnow; auto|intros t|apply Hrefl].
  apply mfin_bind; [apply Hm, mres_get; auto|intros prev].
  apply mfin_bind;
    [apply Hm, mres_logging; auto using frame_request_log|intros _].
  apply mfin_bind; [apply Hm, mres_asyncio_sleep; auto|intros _].
  apply mfin_bind; [apply Hm, _request_frame|intros result].
  intros w0 w1 H01. pose proof (after_control_cases json_data result w1) as H.
  apply frame_request_writes_kept in H01. destruct H01 as (Htasks & Hev & Hwt & Hp).
  destruct (after_control json_data result w1) as [w2 []|w2 e|];
    [|constructor|contradiction].
  - constructor. destruct H as (H1 & H2 & H3 & H4).
    unfold flush_done. rewrite H1, H4, Htasks, Hev. auto.
  - eapply writes_kept_trans; [|exact H]. split; [exact Htasks|].
    unfold same_writes. auto.
Qed.

(** The reads wait for HTTP calls only. *)
Lemma ingest_room_awaits P i : m_awaits P (ingest_room i).
Proof. unfold ingest_room, room_assign. repeat awaits_step. Qed.

Lemma fetch_rooms_info_awaits :
  m_awaits (fun rq => is_http rq = true) fetch_rooms_info.
Proof.
  unfold fetch_rooms_info. repeat awaits_step.
  - apply _request_awaits; [reflexivity|]. intros. apply data_request_http.
  - apply for_each_awaits. intros. apply ingest_room_awaits.
Qed.

Lemma fetch_energy_loop_awaits rooms room_energy :
  m_awaits (fun rq => is_http rq = true) (fetch_energy_loop rooms room_energy).
Proof.
  revert room_energy. induction rooms as [|room rest IH]; intros room_energy;
    simpl; repeat awaits_step.
  - apply _request_awaits; [reflexivity|]. intros. apply data_request_http.
  - apply IH.
Qed.

Lemma update_awaits : m_awaits (fun rq => is_http rq = true) update.
Proof.
  intros w. unfold update. destruct (skip_update w); [constructor|].
  revert w. change (m_awaits (fun rq => is_http rq = true)
                      (do fetch_rooms_info then fetch_energy_info)).
  unfold fetch_energy_info. repeat awaits_step.
  - apply fetch_rooms_info_awaits.
  - apply fetch_energy_loop_awaits.
Qed.

Lemma run_call_read_awaits c :
  is_read c -> m_awaits (fun rq => is_http rq = true) (run_call c).
Proof.
  intros Hc. destruct c; try contradiction;
    unfold run_call, get_homes, get_rooms, get_devices, get_energy;
    repeat awaits_step; apply update_awaits.
Qed.

Lemma caller_result_suspended (c : coro value) sp :
  caller_result c = CallerWaiting sp ->
  exists w, c = Await w (s_request sp) (s_resume sp).
Proof.
  destruct c as [| |w rq k]; simpl; intros H; try discriminate.
  injection H as <-. simpl. eauto.
Qed.

(** The event in the first step of an edit: it is left as it was, and when
    it is clear the caller goes to sleep on it, to return once woken. *)
Lemma set_call_event w room_id temperature heating_enabled :
  let c := run_call (CallSet room_id temperature heating_enabled) w in
  _set_event (self (coro_world c)) = _set_event (self w)
  /\ (ev_flag (_set_event (self w)) = false ->
      forall sp, caller_result c = CallerWaiting sp ->
        s_request sp = EventWait (ev_gen (_set_event (self w)))
        /\ forall w' o, s_resume sp w' o = Ret w' VNone).
Proof.
  unfold run_call, set_room_target_temperature. cbn.
  destruct (_write_task (self w)) as [t|]; cbn;
    (destruct (encode_temperature temperature) as [e|target]; cbn;
     [ split; [reflexivity|]; intros _ sp H; discriminate H
     | unfold event_wait; cbn;
       destruct (ev_flag (_set_event (self w))) eqn:Hflag; cbn;
       (split; [reflexivity|]); intros Hf sp H; try discriminate;
       injection H as <-; cbn; auto ]).
Qed.

Lemma NoDup_other_rooms room_id rooms :
  NoDup (pr_id <$> rooms) -> NoDup (pr_id <$> other_rooms room_id rooms).
Proof.
  intros H. eapply sublist_NoDup; [exact H|].
  apply fmap_sublist. unfold other_rooms. apply sublist_filter.
Qed.

Lemma NoDup_edit room_id rooms heating_enabled target :
  NoDup (pr_id <$> rooms) ->
  NoDup (pr_id <$> (other_rooms room_id rooms
                    ++ [PendingRoom room_id heating_enabled target])).
Proof.
  intros H. rewrite fmap_app. apply NoDup_app.
  split; [apply NoDup_other_rooms, H|]. split.
  - intros x Hx Hin. simpl in Hin. apply list_elem_of_singleton in Hin. subst x.
    apply list_elem_of_fmap in Hx as (r & Hr & Hx).
    unfold other_rooms in Hx. apply list_elem_of_filter in Hx as [Hx _].
    rewrite <- Hr, Z.eqb_refl in Hx. exact Hx.
  - simpl. apply NoDup_singleton.
Qed.

(** The loop takes back a caller that has made a step of a read. *)
Lemma settle_caller_read_write_inv s i c :
  write_inv s ->
  respects frame_read frame_read (world s) c ->
  awaits_only (fun rq => is_http rq = true) c ->
  write_inv (settle_caller s i c).
Proof.
  intros [Hrun Hflag Hnd Hbatch Hcall] Hres Ha.
  pose proof (respects_world _ _ frame_read _ _
                (fun u v H => H) (fun u v H => H) Hres) as Hw.
  apply frame_read_writes_kept in Hw as (Htasks & Hev & Hwt & Hp).
  split; cbn [world running callers settle_caller].
  - exact Hrun.
  - rewrite Hev. exact Hflag.
  - rewrite Hp. exact Hnd.
  - intros t data. rewrite Htasks, Hp. apply Hbatch.
  - intros j sp Hj. rewrite Hev.
    apply lookup_settled in Hj as [Hj|Hj]; [|eauto].
    symmetry in Hj. apply caller_result_suspended in Hj as (w & ->).
    inversion Ha as [| |? ? ? Hrq Hk]; subst. split; [exact Hk|].
    intros g Hg. rewrite Hg in Hrq. discriminate.
Qed.

(** The loop takes back a caller that has made the first step of an edit. *)
Lemma settle_caller_edit_write_inv s room_id temperature heating_enabled :
  sys_inv s ->
  write_inv s ->
  write_inv (settle_caller s (length (callers s))
               (run_call (CallSet room_id temperature heating_enabled)
                  (world s))).
Proof.
  intros Hinv [Hrun Hflag Hnd Hbatch Hcall].
  pose proof (set_call_spec (world s) room_id temperature heating_enabled)
    as Hspec.
  pose proof (set_call_event (world s) room_id temperature heating_enabled)
    as Hevent.
  cbn zeta in Hspec, Hevent. destruct Hspec as [_ Hspec].
  destruct Hevent as [Hev Hwait].
  set (c := run_call (CallSet room_id temperature heating_enabled) (world s))
    in *.
  split; cbn [world running callers settle_caller].
  - exact Hrun.
  - rewrite Hev. exact Hflag.
  - destruct (encode_temperature temperature) as [e|target].
    + destruct Hspec as (_ & _ & _ & ->). apply NoDup_other_rooms, Hnd.
    + destruct Hspec as (_ & _ & -> & _). apply NoDup_edit, Hnd.
  - intros t data Ht.
    assert (Hp : pending_in (tasks (coro_world c)) t = true)
      by (unfold pending_in; rewrite Ht; reflexivity).
    destruct (encode_temperature temperature) as [e|target].
    + destruct Hspec as (_ & Htasks & _). rewrite Htasks in Hp.
      rewrite cancel_slot_none in Hp by exact Hinv. discriminate.
    + destruct Hspec as (Htasks & _ & Hpw & _). rewrite Hpw.
      rewrite Htasks, pending_in_app, cancel_slot_none in Hp by exact Hinv.
      rewrite cancel_slot_length in Hp. rewrite Htasks in Ht.
      destruct (decide (t < length (tasks (world s)))); [discriminate|].
      destruct (decide (t = length (tasks (world s)))) as [->|];
        [|discriminate].
      rewrite lookup_app_r in Ht by (rewrite cancel_slot_length; lia).
      rewrite cancel_slot_length, Nat.sub_diag in Ht. simpl in Ht.
      congruence.
  - intros j sp Hj. rewrite Hev.
    apply lookup_settled in Hj as [Hj|Hj]; [|eauto].
    symmetry in Hj. destruct (Hwait Hflag sp Hj) as [Hrq Hk]. split.
    + intros w o. rewrite Hk. constructor.
    + intros g Hg. rewrite Hrq in Hg. injection Hg as <-.
      split; [lia|exact Hk].
Qed.

(** The loop takes back a task that has made a step. *)
Lemma settle_task_write_inv s t c :
  sys_inv s ->
  write_inv s ->
  pending_in (tasks (world s)) t = true ->
  finishes frame_request flush_done writes_kept (world s) c ->
  write_inv (settle_task s t c).
Proof.
  intros [Hslot _ _ _] [Hrun Hflag Hnd Hbatch Hcall] Hpend Hfin.
  assert (Hother : forall w' st t' data,
             st <> TaskPending ->
             tasks w' = tasks (world s) ->
             tasks (set_task_status t st w') !! t'
             = Some (mkTask data TaskPending) -> False).
  { intros w' st t' data Hst Htasks Ht'.
    assert (Hp : pending_in (tasks (set_task_status t st w')) t' = true)
      by (unfold pending_in; rewrite Ht'; reflexivity).
    simpl in Hp. rewrite Htasks in Hp.
    apply pending_in_finish in Hp as [Hp Hne]; [|exact Hst].
    apply Hslot in Hp. apply Hslot in Hpend. congruence. }
  inversion Hfin as [w0 w r Hd|w0 w e Hk|w0 w rq k Ha Hk]; subst;
    cbn [settle_task].
  - destruct Hd as (Htasks & Hp & Hwt & Hev).
    split; cbn [world running callers set_task_status with_tasks self].
    + intros t' sp H. apply lookup_delete_Some in H as [_ H]. eauto.
    + rewrite Hev. reflexivity.
    + rewrite Hp. constructor.
    + intros t' data Ht'. exfalso.
      eapply (Hother w TaskFinished t' data); [discriminate|exact Htasks|].
      exact Ht'.
    + intros j sp Hj. destruct (Hcall j sp Hj) as [H1 H2]. split; [exact H1|].
      intros g Hg. rewrite Hev. simpl. destruct (H2 g Hg) as [H3 H4].
      split; [lia|exact H4].
  - destruct Hk as (Htasks & Hev & Hwt & Hp).
    split; cbn [world running callers set_task_status with_tasks self].
    + intros t' sp H. apply lookup_delete_Some in H as [_ H]. eauto.
    + rewrite Hev. exact Hflag.
    + rewrite Hp. exact Hnd.
    + intros t' data Ht'. exfalso.
      eapply (Hother w (TaskFailed e) t' data); [discriminate|exact Htasks|].
      exact Ht'.
    + intros j sp Hj. rewrite Hev. apply (Hcall j sp Hj).
  - apply frame_request_writes_kept in Ha as (Htasks & Hev & Hwt & Hp).
    split; cbn [world running callers].
    + intros t' sp H. apply lookup_insert_Some in H as [[_ <-]|[_ H]];
        simpl; eauto.
    + rewrite Hev. exact Hflag.
    + rewrite Hp. exact Hnd.
    + intros t' data. rewrite Htasks, Hp. apply Hbatch.
    + intros j sp Hj. rewrite Hev. apply (Hcall j sp Hj).
Qed.

Lemma write_inv_step s ev s' :
  sys_inv s -> write_inv s -> step s ev = Some s' -> write_inv s'.
Proof.
  intros Hinv Hw Hstep. destruct ev as [d|c|t|t o|i o]; cbn [step] in Hstep.
  - took_step Hstep. destruct Hw as [Hrun Hflag Hnd Hbatch Hcall].
    split; simpl; auto.
  - took_step Hstep.
    destruct c as [| | | | |room_id temperature heating_enabled];
      try (apply settle_caller_read_write_inv;
           [exact Hw
           |apply run_call_read; [exact I|apply frame_read_refl]
           |apply run_call_read_awaits; exact I]).
    apply settle_caller_edit_write_inv; assumption.
  - destruct (tasks (world s) !! t) as [[data []]|] eqn:Ht;
      try discriminate.
    destruct (running s !! t) eqn:Hr; [discriminate|].
    took_step Hstep. apply settle_task_write_inv; auto.
    + unfold pending_in. rewrite Ht. reflexivity.
    + apply flush_finishes.
  - destruct (running s !! t) as [sp|] eqn:Hr; [|discriminate].
    destruct (task_pending (world s) t && ready _ _ _) eqn:Hb;
      [|discriminate].
    took_step Hstep. apply andb_true_iff in Hb as [Hp _].
    apply settle_task_write_inv; auto.
    destruct Hw as [Hrun _ _ _ _]. eapply Hrun. exact Hr.
  - destruct (callers s !! i) as [[sp| |]|] eqn:Hi; try discriminate.
    destruct (ready _ _ _); [|discriminate].
    took_step Hstep. apply settle_caller_read_write_inv; [exact Hw| |].
    + destruct Hinv as [_ _ _ Hcall]. eapply Hcall. exact Hi.
    + destruct Hw as [_ _ _ _ Hcall]. apply (Hcall i sp Hi).
Qed.

Lemma write_inv_steps evs : forall s s',
  sys_inv s -> write_inv s -> steps s evs = Some s' -> write_inv s'.
Proof.
  induction evs as [|ev evs IH]; intros s s' Hinv Hw H; simpl in H.
  - injection H as <-. exact Hw.
  - destruct (step s ev) as [s1|] eqn:Hs; [|discriminate].
    apply (IH s1 s'); [eapply sys_inv_step|eapply write_inv_step|]; eauto.
Qed.

Lemma write_inv_boot account_id password with_energy t0 :
  write_inv (boot account_id password with_energy t0).
Proof.
  split; simpl.
  - intros t sp H. rewrite lookup_empty in H. discriminate.
  - reflexivity.
  - constructor.
  - intros t data H. rewrite lookup_nil in H. discriminate.
  - intros i sp H. rewrite lookup_nil in H. discriminate.
Qed.

Lemma reachable_write_inv s : reachable s -> write_inv s.
Proof.
  intros (a & p & e & t0 & evs & H).
  eapply write_inv_steps; [apply sys_inv_boot|apply write_inv_boot|exact H].
Qed.

(** In every state the client can reach at most one flush is pending.  It is
    the task in the write slot, and its batch is the pending set of the
    object. *)
Theorem one_flush_pending (s : System) (t : nat) (data : pending) :
  reachable s ->
  tasks (world s) !! t = Some (mkTask data TaskPending) ->
  _write_task (self (world s)) = Some t
  /\ data = _pending_writes (self (world s))
  /\ forall t', pending_in (tasks (world s)) t' = true -> t' = t.
Proof.
  intros Hreach Ht.
  pose proof (reachable_inv s Hreach) as [Hslot _ _ _].
  pose proof (reachable_write_inv s Hreach) as [_ _ _ Hbatch _].
  assert (Hp : pending_in (tasks (world s)) t = true)
    by (unfold pending_in; rewrite Ht; reflexivity).
  split; [apply Hslot, Hp|]. split; [apply (Hbatch t data Ht)|].
  intros t' Hp'. apply Hslot in Hp, Hp'. congruence.
Qed.

Lemma one_flush_pending_witness :
  match steps (boot "a" "p" false 0) two_edits with
  | Some s => _write_task (self (world s)) = Some 1
  | None => False
  end.
Proof.
  destruct (steps (boot "a" "p" false 0) two_edits) as [s|] eqn:Hs;
    [|exfalso; revert Hs; apply steps_defined; vm_compute; reflexivity].
  apply (one_flush_pending s 1 [PendingRoom 1 (Some false) "2200"]).
  - exists "a", "p", false, 0%Z, two_edits. exact Hs.
  - apply (steps_project (fun s => tasks (world s) !! 1) _ _ _ _ Hs).
    vm_compute. reflexivity.
Defined.

Lemma set_call_suspends w room_id temperature heating_enabled target :
  ev_flag (_set_event (self w)) = false ->
  encode_temperature temperature = inr target ->
  exists w',
    run_call (CallSet room_id temperature heating_enabled) w
    = Await w' (EventWait (ev_gen (_set_event (self w))))
        (fun w'' _ => Ret w'' VNone)
    /\ _set_event (self w') = _set_event (self w).
Proof.
  intros Hflag Henc.
  unfold run_call, set_room_target_temperature. cbn.
  destruct (_write_task (self w)) as [t|]; cbn; rewrite Henc; cbn;
    unfold event_wait; cbn; rewrite Hflag; cbn; eauto.
Qed.

(** In every state the client can reach the event is clear, so an edit whose
    temperature can be encoded never returns at once: its caller is suspended
    on the event and cannot be resumed in the state the edit leaves. *)
Theorem edit_suspends_its_caller
    (s s' : System) (room_id : Z) (temperature : float)
    (heating_enabled : option bool) (target : string) :
  reachable s ->
  encode_temperature temperature = inr target ->
  step s (Call (CallSet room_id temperature heating_enabled)) = Some s' ->
  ev_flag (_set_event (self (world s))) = false
  /\ exists sp,
       callers s' !! length (callers s) = Some (CallerWaiting sp)
       /\ s_request sp = EventWait (ev_gen (_set_event (self (world s'))))
       /\ forall o, step s' (ResumeCaller (length (callers s)) o) = None.
Proof.
  intros Hreach Henc Hstep.
  pose proof (reachable_write_inv s Hreach) as [_ Hflag _ _ _].
  split; [exact Hflag|].
  cbn [step] in Hstep. took_step Hstep.
  destruct (set_call_suspends (world s) room_id temperature heating_enabled
              target Hflag Henc) as (w' & -> & Hev).
  assert (Hlook : forall x,
             (if decide (length (callers s) < length (callers s))
              then <[length (callers s) := x]> (callers s)
              else callers s ++ [x]) !! length (callers s) = Some x).
  { intros x.
    destruct (decide (length (callers s) < length (callers s))); [lia|].
    rewrite lookup_app_r, Nat.sub_diag by lia. reflexivity. }
  eexists. cbn [callers settle_caller caller_result world coro_world].
  split; [apply Hlook|]. cbn [s_request]. rewrite Hev.
  split; [reflexivity|].
  intros o. cbn [step callers settle_caller caller_result]. rewrite Hlook.
  cbn [s_request s_since ready world settle_caller coro_world].
  rewrite Hev, Nat.ltb_irrefl. reflexivity.
Qed.

Lemma edit_suspends_its_caller_witness :
  match step (boot "a" "p" false 0)
          (Call (CallSet 1 (float_lit 215 1) (Some true))) with
  | Some s' => forall o, step s' (ResumeCaller 0 o) = None
  | None => False
  end.
Proof.
  destruct (step (boot "a" "p" false 0)
              (Call (CallSet 1 (float_lit 215 1) (Some true))))
    as [s'|] eqn:Hs; [|simpl in Hs; discriminate].
  destruct (edit_suspends_its_caller (boot "a" "p" false 0) s' 1
              (float_lit 215 1) (Some true) "2150")
    as (_ & sp & _ & _ & H).
  - exists "a", "p", false, 0%Z, []. reflexivity.
  - vm_compute. reflexivity.
  - exact Hs.
  - exact H.
Defined.

(** A flush that runs to its last line leaves the pending set and the write
    slot empty and the event clear, and it releases every caller that waits
    on the event: each of them can be resumed, and returns. *)
Theorem completed_flush_releases_waiters
    (s s' : System) (t : nat) (o : io_outcome) (data : pending) :
  reachable s ->
  step s (ResumeTask t o) = Some s' ->
  tasks (world s') !! t = Some (mkTask data TaskFinished) ->
  _pending_writes (self (world s')) = []
  /\ _write_task (self (world s')) = None
  /\ (forall t', pending_in (tasks (world s')) t' = false)
  /\ forall i sp g o',
       callers s' !! i = Some (CallerWaiting sp) ->
       s_request sp = EventWait g ->
       exists s'',
         step s' (ResumeCaller i o') = Some s''
         /\ callers s'' !! i = Some (CallerReturned VNone).
Proof.
  intros Hreach Hstep Hdone.
  pose proof (reachable_inv s Hreach) as Hinv.
  pose proof (reachable_write_inv s Hreach) as Hw.
  pose proof (sys_inv_step _ _ _ Hinv Hstep) as Hinv'.
  cbn [step] in Hstep.
  destruct (running s !! t) as [sp|] eqn:Hr; [|discriminate].
  destruct (task_pending (world s) t && ready _ _ _) eqn:Hb; [|discriminate].
  apply andb_true_iff in Hb as [Hp _]. rewrite task_pending_in in Hp.
  pose proof (wi_running s Hw t sp Hr (world s) o) as Hfin.
  took_step Hstep.
  inversion Hfin as [w0 w r Hd|w0 w e Hk|w0 w rq k Ha Hk];
    match goal with Heq : _ = s_resume sp (world s) o |- _ =>
      rewrite <- Heq in *; clear Heq end;
    cbn [settle_task world] in *.
  - destruct Hd as (Htasks & Hpw & Hwt & Hev).
    cbn [set_task_status with_tasks self]. split; [exact Hpw|].
    split; [exact Hwt|]. split.
    + intros t'. destruct (pending_in _ t') eqn:Hp'; [|reflexivity].
      apply (inv_slot _ Hinv') in Hp'.
      cbn [world self set_task_status with_tasks] in Hp'. congruence.
    + intros i sp' g o' Hi Hg. cbn [callers] in Hi.
      destruct (wi_callers s Hw i sp' Hi) as [_ Hwake].
      destruct (Hwake g Hg) as [Hle Hret].
      cbn [step callers world]. rewrite Hi, Hg.
      cbn [ready self set_task_status with_tasks]. rewrite Hev. cbn [ev_gen].
      assert (Hlt : (g <? S (ev_gen (_set_event (self (world s))))) = true)
        by (apply Nat.ltb_lt; lia).
      rewrite Hlt, Hret. eexists. split; [reflexivity|].
      cbn [callers settle_caller caller_result].
      assert (Hlen : i < length (callers s))
        by (apply lookup_lt_is_Some; eauto).
      destruct (decide (i < length (callers s))); [|lia].
      apply list_lookup_insert_eq. exact Hlen.
  - exfalso. cbn [set_task_status with_tasks tasks] in Hdone.
    rewrite list_lookup_alter_eq in Hdone.
    destruct (tasks w !! t); simpl in Hdone; discriminate.
  - exfalso. destruct Ha as (_ & Htasks & _). rewrite Htasks in Hdone.
    unfold pending_in in Hp. rewrite Hdone in Hp. discriminate.
Qed.

Lemma completed_flush_releases_waiters_witness :
  match steps (boot "a" "p" false 0) flush_posted with
  | Some s =>
      match step s (ResumeTask 0 (ok_answer BodyEmpty)) with
      | Some s' =>
          _pending_writes (self (world s')) = []
          /\ _write_task (self (world s')) = None
          /\ exists s'',
               step s' (ResumeCaller 0 (ok_answer BodyEmpty)) = Some s''
               /\ callers s'' !! 0 = Some (CallerReturned VNone)
      | None => False
      end
  | None => False
  end.
Proof.
  destruct (steps (boot "a" "p" false 0) flush_posted) as [s|] eqn:Hs;
    [|exfalso; revert Hs; apply steps_defined; vm_compute; reflexivity].
  destruct (step s (ResumeTask 0 (ok_answer BodyEmpty))) as [s'|] eqn:Hs'.
  - pose proof (steps_snoc _ _ _ _ _ Hs Hs') as Hs2.
    destruct (completed_flush_releases_waiters s s' 0 (ok_answer BodyEmpty)
                [PendingRoom 1 (Some true) "2150"])
      as (H1 & H2 & _ & H4).
    + exists "a", "p", false, 0%Z, flush_posted. exact Hs.
    + exact Hs'.
    + apply (steps_project (fun s => tasks (world s) !! 0) _ _ _ _ Hs2).
      vm_compute. reflexivity.
    + split; [exact H1|]. split; [exact H2|].
      assert (Hc : exists sp, callers s' !! 0 = Some (CallerWaiting sp)
                              /\ s_request sp = EventWait 0).
      { apply (steps_project
                 (fun s => match callers s !! 0 with
                           | Some (CallerWaiting sp) =>
                               match s_request sp with
                               | EventWait 0 => true
                               | _ => false
                               end
                           | _ => false
                           end) _ _ _ true) in Hs2;
          [|vm_compute; reflexivity].
        destruct (callers s' !! 0) as [[sp| |]|]; try discriminate.
        exists sp. split; [reflexivity|].
        destruct (s_request sp) as [| | |[|g]]; try discriminate. reflexivity. }
      destruct Hc as (sp & Hc1 & Hc2).
      apply (H4 0 sp 0 (ok_answer BodyEmpty) Hc1 Hc2).
  - assert (H : steps (boot "a" "p" false 0)
                  (flush_posted ++ [ResumeTask 0 (ok_answer BodyEmpty)])
                <> None)
      by (apply steps_defined; vm_compute; reflexivity).
    apply H. rewrite steps_app, Hs. cbn [steps]. rewrite Hs'. reflexivity.
Defined.

(** In every state the client can reach, the pending set holds at most one
    entry for each room: an edit replaces the entry of its room, and no
    other line adds one. *)
Theorem pending_set_one_entry_per_room (s : System) :
  reachable s -> NoDup (pr_id <$> _pending_writes (self (world s))).
Proof. intros Hreach. apply (wi_nodup s), reachable_write_inv, Hreach. Qed.

Lemma pending_set_one_entry_per_room_witness :
  match steps (boot "a" "p" false 0) two_edits with
  | Some s => NoDup (pr_id <$> _pending_writes (self (world s)))
  | None => False
  end.
Proof.
  destruct (steps (boot "a" "p" false 0) two_edits) as [s|] eqn:Hs;
    [|exfalso; revert Hs; apply steps_defined; vm_compute; reflexivity].
  apply (pending_set_one_entry_per_room s).
  exists "a", "p", false, 0%Z, two_edits. exact Hs.
Defined.

(** ** The target temperature, written and read back *)

Lemma digit_of_pretty_N_char x :
  (x < 10)%N -> digit_of (pretty_N_char x) = Some (Z.of_N x).
Proof.
  intros H.
  assert (Hx : (x = 0 \/ x = 1 \/ x = 2 \/ x = 3 \/ x = 4 \/ x = 5 \/ x = 6
                \/ x = 7 \/ x = 8 \/ x = 9)%N) by lia.
  destruct Hx as [->|[->|[->|[->|[->|[->|[->|[->|[->| ->]]]]]]]]];
    reflexivity.
Qed.

(** The digits [pretty_N_go] writes in front of [s] are read back as the
    number they stand for. *)
Lemma digits_value_pretty_N_go x : forall acc s,
  exists k,
    digits_value acc (pretty_N_go x s)
    = digits_value (acc * 10 ^ Z.of_nat k + Z.of_N x)%Z s.
Proof.
  induction (N.lt_wf_0 x) as [x _ IH]. intros acc s.
  destruct (decide (x = 0)%N) as [->|Hx].
  - exists 0. rewrite pretty_N_go_0. f_equal. simpl. lia.
  - rewrite pretty_N_go_step by lia.
    destruct (IH (x `div` 10)%N) with (acc := acc)
      (s := String (pretty_N_char (x `mod` 10)) s) as [k Hk].
    { apply N.div_lt; lia. }
    exists (S k). rewrite Hk. simpl.
    rewrite digit_of_pretty_N_char by (apply N.mod_lt; lia).
    f_equal. rewrite Nat2Z.inj_succ, Z.pow_succ_r by lia.
    rewrite (N.div_mod x 10) at 3 by lia.
    rewrite N2Z.inj_add, N2Z.inj_mul. simpl Z.of_N. lia.
Qed.

Lemma digits_value_pretty_pos p :
  digits_value 0 (pretty_N_go (N.pos p) "") = Some (Z.pos p)
  /\ pretty_N_go (N.pos p) "" <> "".
Proof.
  destruct (digits_value_pretty_N_go (N.pos p) 0 "") as [k Hk].
  simpl in Hk. split; [exact Hk|].
  intros Hs. rewrite Hs in Hk. discriminate.
Qed.

Lemma int_of_str_digits s n :
  digits_value 0 s = Some n -> s <> "" -> int_of_str s = Some n.
Proof.
  intros H Hs. destruct s as [|a s]; [contradiction|].
  destruct a as [[] [] [] [] [] [] [] []];
    try exact H; simpl in H; discriminate H.
Qed.

Lemma int_of_str_py_str_int n : int_of_str (py_str_int n) = Some n.
Proof.
  unfold py_str_int, pretty, pretty_Z.
  destruct n as [|p|p].
  - reflexivity.
  - unfold pretty, pretty_positive, pretty, pretty_N.
    destruct (decide (N.pos p = 0%N)); [discriminate|].
    destruct (digits_value_pretty_pos p) as [H1 H2].
    apply int_of_str_digits; assumption.
  - unfold pretty, pretty_positive, pretty, pretty_N.
    destruct (decide (N.pos p = 0%N)); [discriminate|].
    destruct (digits_value_pretty_pos p) as [H1 H2].
    destruct (pretty_N_go (N.pos p) "") as [|a s]; [contradiction|].
    change (Z.opp <$> digits_value 0 (String a s) = Some (Z.neg p)).
    rewrite H1. reflexivity.
Qed.

(** The string an edit writes for a temperature is read back by the flush as
    the integer it stands for: [float(str(int(temperature * 100)))] never
    raises a [ValueError], and what is written into the snapshot is the
    float of that integer, divided by 100. *)
Theorem target_temperature_round_trip (temperature : float) (target : string) :
  encode_temperature temperature = inr target ->
  exists n,
    py_int (float_mul temperature (float_of_Z 100)) = inr n
    /\ target = py_str_int n
    /\ int_of_str target = Some n
    /\ py_float_of_str target = py_float_of_int n.
Proof.
  unfold encode_temperature. intros H.
  destruct (py_int (float_mul temperature (float_of_Z 100))) as [e|n];
    [discriminate|].
  injection H as <-. exists n. split; [reflexivity|]. split; [reflexivity|].
  split; [apply int_of_str_py_str_int|].
  unfold py_float_of_str. rewrite int_of_str_py_str_int. reflexivity.
Qed.

Lemma target_temperature_round_trip_witness :
  exists n, int_of_str "2150" = Some n.
Proof.
  destruct (target_temperature_round_trip (float_lit 215 1) "2150")
    as (n & _ & _ & H & _); [vm_compute; reflexivity|].
  exists n. exact H.
Defined.
